(** * COXIRIS positioning system: the serial G-code client

    A shallow embedding of [src/main/serial.js] (class [SerialGCodePrinter])
    and of the script block of the positioning page (the Svelte component
    holding the displayed position), followed by the properties of the
    command/response correlation layer that the specification states.

    JavaScript runs one handler at a time to completion.  The embedding
    follows that: every method of the class and every event handler it
    installs is a function from the client's state to the client's state,
    the environment (the serial port, the timers, the renderer) chooses which
    handler runs next, and the continuations of [async] functions parked on
    an [await] run right after the handler that settled their promise. *)

From Stdlib Require Import String Ascii ZArith List Bool Lia.
From Stdlib Require Import DecimalString.
From stdpp Require Import base option gmap.
Import ListNotations.

Open Scope string_scope.

(** ** Text *)

Module Text.

(** The characters JavaScript's [String.prototype.trim] strips, among the
    code units below 256: TAB, LF, VT, FF, CR, SPACE and NBSP. *)
Definition isWhiteSpace (c : ascii) : bool :=
  let n := nat_of_ascii c in
  (((9 <=? n) && (n <=? 13)) || (n =? 32) || (n =? 160))%nat.

Fixpoint trimStart (s : string) : string :=
  match s with
  | String c rest => if isWhiteSpace c then trimStart rest else s
  | EmptyString => EmptyString
  end.

(** [trimEnd] keeps a character when it is not white space or when
    something is left after it. *)
Fixpoint trimEnd (s : string) : string :=
  match s with
  | String c rest =>
      match trimEnd rest with
      | EmptyString => if isWhiteSpace c then EmptyString else String c EmptyString
      | kept => String c kept
      end
  | EmptyString => EmptyString
  end.

Definition trim (s : string) : string := trimEnd (trimStart s).

(** [s.startsWith(p)] *)
Fixpoint startsWith (p s : string) : bool :=
  match p, s with
  | EmptyString, _ => true
  | String a p', String b s' => Ascii.eqb a b && startsWith p' s'
  | String _ _, EmptyString => false
  end.

(** [s.substring(n)], the text from index [n] to the end. *)
Fixpoint substringFrom (n : nat) (s : string) : string :=
  match n, s with
  | O, _ => s
  | S n', String _ rest => substringFrom n' rest
  | S _, EmptyString => EmptyString
  end.



Fixpoint zeros (n : nat) : string :=
  match n with
  | O => EmptyString
  | S n' => String "0" (zeros n')
  end.

Definition quote : string := String "034" EmptyString.
Definition newline : string := String "010" EmptyString.

End Text.

(** ** Numbers as they print

    Axis values, the speed and the timeout are JavaScript numbers that the
    client only ever compares with zero and interpolates into text.  A
    number is therefore kept as what [Number::toString] works on
    (ECMA-262, Number::toString, radix 10): a finite non-zero value is its
    sign with the digits [s] and the exponent of its shortest round-trip
    decimal, so that the value is [s * 10 ^ exponent]. *)

Module Num.

Inductive JSNumber : Type :=
| NaN
| Infinity (negative : bool)
| Zero
| Decimal (negative : bool) (digits : positive) (exponent : Z).

Definition digitString (s : positive) : string :=
  NilEmpty.string_of_uint (Pos.to_uint s).

Definition natString (n : nat) : string :=
  NilZero.string_of_uint (Nat.to_uint n).

(** Steps 5 to 10 of Number::toString for a positive finite value: [k] is
    the number of digits and [n] places the decimal point. *)
Definition positiveToString (s : positive) (exponent : Z) : string :=
  let ds := digitString s in
  let k := Z.of_nat (String.length ds) in
  let n := (k + exponent)%Z in
  if ((k <=? n) && (n <=? 21))%Z then
    ds ++ Text.zeros (Z.to_nat (n - k))
  else if ((0 <? n) && (n <=? 21))%Z then
    String.substring 0 (Z.to_nat n) ds ++ "." ++ Text.substringFrom (Z.to_nat n) ds
  else if ((-6 <? n) && (n <=? 0))%Z then
    "0." ++ Text.zeros (Z.to_nat (- n)) ++ ds
  else
    let e := (n - 1)%Z in
    let sign := if (e <? 0)%Z then "-" else "+" in
    let mantissa :=
      match ds with
      | String d EmptyString => ds
      | String d rest => String d ("." ++ rest)
      | EmptyString => ds
      end in
    mantissa ++ "e" ++ sign ++ natString (Z.abs_nat e).

(** The text a template literal interpolates for a number. *)
Definition toString (x : JSNumber) : string :=
  match x with
  | NaN => "NaN"
  | Infinity false => "Infinity"
  | Infinity true => "-Infinity"
  | Zero => "0"
  | Decimal false s e => positiveToString s e
  | Decimal true s e => "-" ++ positiveToString s e
  end.

(** [x > 0] *)
Definition isPositive (x : JSNumber) : bool :=
  match x with
  | Infinity false => true
  | Decimal false _ _ => true
  | _ => false
  end.


End Num.

(** ** The client's state *)

Import Num.

Definition PromiseId := nat.
Definition TimerId := nat.
Definition WriteId := nat.
Definition CloseId := nat.

(** The [Error] objects that reach a promise. *)
Inductive JSError : Type :=
| NotConnected                                      (* new Error('Not connected to printer') *)
| TimedOut (command : string) (timeout : JSNumber)  (* the timeoutError of sendCommand *)
| PortFailure (detail : string)                     (* an error the serial port hands over *)
| NoPort.                                           (* TypeError: this.port is null *)

Definition message (e : JSError) : string :=
  match e with
  | NotConnected => "Not connected to printer"
  | TimedOut command timeout =>
      "Command " ++ Text.quote ++ command ++ Text.quote
        ++ " timed out after " ++ toString timeout ++ "ms"
  | PortFailure detail => detail
  | NoPort => "Cannot read properties of null (reading 'close')"
  end.

(** How a promise is settled: [resolve()] or [reject(e)]. *)
Inductive Settlement : Type :=
| Fulfilled
| Rejected (e : JSError).

(** What the client does to the world around it, in the order it does it.
    [Settle p o] records one invocation of the [resolve] or the [reject]
    function of promise [p]; [Call] records one entry into [sendCommand]. *)
Inductive Obs : Type :=
| Call (command : string)
| PortWrite (data : string)
| Settle (p : PromiseId) (o : Settlement)
| RendererError (text : string)
| LogError (text : string) (e : JSError)
| LogText (text detail : string)
| Notify (listener : nat) (argument : option string)
| OpenPort (path : string)
| ClosePort.

(** The entries of [moveCompleteCallbacks]: the [resolve] function of a
    promise, pushed by [sendCommand], or a function of some other caller of
    [onMoveComplete]. *)
Inductive Callback : Type :=
| ResolveOf (p : PromiseId)
| Listener (n : nat).

(** [cb !== resolve], with [resolve] the resolver of promise [p]. *)
Definition isNotResolveOf (p : PromiseId) (cb : Callback) : bool :=
  match cb with
  | ResolveOf q => negb (Nat.eqb q p)
  | Listener _ => true
  end.

(** A [SerialPort] object made by [connect]; its handlers close over the
    path and over the [resolve]/[reject] pair of that call's promise. *)
Record Port : Type := { path : string; opener : PromiseId }.

(** The two functions handed to [setTimeout]. *)
Inductive TimerBody : Type :=
| Handshake (connecting : PromiseId)
| CommandTimeout (command : string) (timeout : JSNumber) (p : PromiseId).

(** The callback handed to [port.write] closes over the command, its
    timeout and its promise. *)
Record WriteClosure : Type :=
  { wCommand : string; wTimeout : JSNumber; wPromise : PromiseId }.

(** The [position] or [distance] argument of a move: each field is a
    number, or [undefined] when the axis is left out, [None] here. *)
Record Axes : Type :=
  { x : option JSNumber; y : option JSNumber; z : option JSNumber }.

(** Where an [async] function is parked on an [await]. *)
Inductive Continuation : Type :=
| HandshakeSent (connecting : PromiseId)
| DeltaEntered (distance : Axes) (rapid : bool) (result : PromiseId)
| DeltaMoved (result : PromiseId)
| DeltaReturning (result : PromiseId)
| DeltaRestoring (error : JSError) (result : PromiseId).

Record Task : Type := { awaiting : PromiseId; continuation : Continuation }.

Record State : Type := mkState {
  (* the fields of SerialGCodePrinter *)
  port : option Port;
  currentSpeed : JSNumber;
  isConnected : bool;
  moveCompleteCallbacks : list Callback;
  errorCallbacks : list nat;
  currentCommand : option string;
  timeoutId : option TimerId;
  mainWindow : bool;
  (* the runtime: armed timers, callbacks the port still owes, promises *)
  timers : gmap TimerId TimerBody;
  nextTimer : TimerId;
  writes : gmap WriteId WriteClosure;
  nextWrite : WriteId;
  closes : gmap CloseId PromiseId;
  nextClose : CloseId;
  nextPromise : PromiseId;
  tasks : list Task;
  trace : list Obs
}.

(** The constructor, before [initializeIPC]. *)
Definition initial : State :=
  {| port := None; currentSpeed := Zero; isConnected := false;
     moveCompleteCallbacks := []; errorCallbacks := [];
     currentCommand := None; timeoutId := None; mainWindow := false;
     timers := ∅; nextTimer := 0; writes := ∅; nextWrite := 0;
     closes := ∅; nextClose := 0; nextPromise := 0; tasks := []; trace := [] |}.

Definition set_port v (s : State) : State :=
  mkState v (currentSpeed s) (isConnected s) (moveCompleteCallbacks s)
    (errorCallbacks s) (currentCommand s) (timeoutId s) (mainWindow s)
    (timers s) (nextTimer s) (writes s) (nextWrite s) (closes s) (nextClose s)
    (nextPromise s) (tasks s) (trace s).
Definition set_currentSpeed v (s : State) : State :=
  mkState (port s) v (isConnected s) (moveCompleteCallbacks s)
    (errorCallbacks s) (currentCommand s) (timeoutId s) (mainWindow s)
    (timers s) (nextTimer s) (writes s) (nextWrite s) (closes s) (nextClose s)
    (nextPromise s) (tasks s) (trace s).
Definition set_isConnected v (s : State) : State :=
  mkState (port s) (currentSpeed s) v (moveCompleteCallbacks s)
    (errorCallbacks s) (currentCommand s) (timeoutId s) (mainWindow s)
    (timers s) (nextTimer s) (writes s) (nextWrite s) (closes s) (nextClose s)
    (nextPromise s) (tasks s) (trace s).
Definition set_moveCompleteCallbacks v (s : State) : State :=
  mkState (port s) (currentSpeed s) (isConnected s) v
    (errorCallbacks s) (currentCommand s) (timeoutId s) (mainWindow s)
    (timers s) (nextTimer s) (writes s) (nextWrite s) (closes s) (nextClose s)
    (nextPromise s) (tasks s) (trace s).
Definition set_errorCallbacks v (s : State) : State :=
  mkState (port s) (currentSpeed s) (isConnected s) (moveCompleteCallbacks s)
    v (currentCommand s) (timeoutId s) (mainWindow s)
    (timers s) (nextTimer s) (writes s) (nextWrite s) (closes s) (nextClose s)
    (nextPromise s) (tasks s) (trace s).
Definition set_currentCommand v (s : State) : State :=
  mkState (port s) (currentSpeed s) (isConnected s) (moveCompleteCallbacks s)
    (errorCallbacks s) v (timeoutId s) (mainWindow s)
    (timers s) (nextTimer s) (writes s) (nextWrite s) (closes s) (nextClose s)
    (nextPromise s) (tasks s) (trace s).
Definition set_timeoutId v (s : State) : State :=
  mkState (port s) (currentSpeed s) (isConnected s) (moveCompleteCallbacks s)
    (errorCallbacks s) (currentCommand s) v (mainWindow s)
    (timers s) (nextTimer s) (writes s) (nextWrite s) (closes s) (nextClose s)
    (nextPromise s) (tasks s) (trace s).
Definition set_mainWindow v (s : State) : State :=
  mkState (port s) (currentSpeed s) (isConnected s) (moveCompleteCallbacks s)
    (errorCallbacks s) (currentCommand s) (timeoutId s) v
    (timers s) (nextTimer s) (writes s) (nextWrite s) (closes s) (nextClose s)
    (nextPromise s) (tasks s) (trace s).
Definition set_timers v n (s : State) : State :=
  mkState (port s) (currentSpeed s) (isConnected s) (moveCompleteCallbacks s)
    (errorCallbacks s) (currentCommand s) (timeoutId s) (mainWindow s)
    v n (writes s) (nextWrite s) (closes s) (nextClose s)
    (nextPromise s) (tasks s) (trace s).
Definition set_writes v n (s : State) : State :=
  mkState (port s) (currentSpeed s) (isConnected s) (moveCompleteCallbacks s)
    (errorCallbacks s) (currentCommand s) (timeoutId s) (mainWindow s)
    (timers s) (nextTimer s) v n (closes s) (nextClose s)
    (nextPromise s) (tasks s) (trace s).
Definition set_closes v n (s : State) : State :=
  mkState (port s) (currentSpeed s) (isConnected s) (moveCompleteCallbacks s)
    (errorCallbacks s) (currentCommand s) (timeoutId s) (mainWindow s)
    (timers s) (nextTimer s) (writes s) (nextWrite s) v n
    (nextPromise s) (tasks s) (trace s).
Definition set_nextPromise v (s : State) : State :=
  mkState (port s) (currentSpeed s) (isConnected s) (moveCompleteCallbacks s)
    (errorCallbacks s) (currentCommand s) (timeoutId s) (mainWindow s)
    (timers s) (nextTimer s) (writes s) (nextWrite s) (closes s) (nextClose s)
    v (tasks s) (trace s).
Definition set_tasks v (s : State) : State :=
  mkState (port s) (currentSpeed s) (isConnected s) (moveCompleteCallbacks s)
    (errorCallbacks s) (currentCommand s) (timeoutId s) (mainWindow s)
    (timers s) (nextTimer s) (writes s) (nextWrite s) (closes s) (nextClose s)
    (nextPromise s) v (trace s).
Definition set_trace v (s : State) : State :=
  mkState (port s) (currentSpeed s) (isConnected s) (moveCompleteCallbacks s)
    (errorCallbacks s) (currentCommand s) (timeoutId s) (mainWindow s)
    (timers s) (nextTimer s) (writes s) (nextWrite s) (closes s) (nextClose s)
    (nextPromise s) (tasks s) v.

(** ** The runtime: promises, timers, the port's callbacks *)

Definition observe (o : Obs) (s : State) : State := set_trace (trace s ++ [o]) s.

(** [new Promise(...)], or the promise an [async] function returns. *)
Definition newPromise (s : State) : PromiseId * State :=
  (nextPromise s, set_nextPromise (S (nextPromise s)) s).

(** One invocation of promise [p]'s [resolve] or [reject]. *)
Definition settle (p : PromiseId) (o : Settlement) (s : State) : State :=
  observe (Settle p o) s.

Definition settles (p : PromiseId) (o : Obs) : option Settlement :=
  match o with
  | Settle q r => if Nat.eqb q p then Some r else None
  | _ => None
  end.

(** Every invocation of the resolving functions of [p], oldest first. *)
Fixpoint invocations (p : PromiseId) (tr : list Obs) : list Settlement :=
  match tr with
  | [] => []
  | o :: rest =>
      match settles p o with
      | Some r => r :: invocations p rest
      | None => invocations p rest
      end
  end.

(** A promise takes the first settlement and ignores the later ones;
    [None] is a pending promise. *)
Definition promiseState (p : PromiseId) (s : State) : option Settlement :=
  head (invocations p (trace s)).

(** What was handed to [port.write], oldest first. *)
Fixpoint wire (tr : list Obs) : list string :=
  match tr with
  | [] => []
  | PortWrite data :: rest => data :: wire rest
  | _ :: rest => wire rest
  end.

(** The commands [sendCommand] was entered with, oldest first. *)
Fixpoint attempts (tr : list Obs) : list string :=
  match tr with
  | [] => []
  | Call command :: rest => command :: attempts rest
  | _ :: rest => attempts rest
  end.

Definition setTimeout (body : TimerBody) (s : State) : TimerId * State :=
  (nextTimer s, set_timers (<[nextTimer s := body]> (timers s)) (S (nextTimer s)) s).

Definition clearTimeout (t : TimerId) (s : State) : State :=
  set_timers (delete t (timers s)) (nextTimer s) s.

(** [this.port.write(data, callback)] *)
Definition portWrite (data : string) (callback : WriteClosure) (s : State) : State :=
  let s := observe (PortWrite data) s in
  set_writes (<[nextWrite s := callback]> (writes s)) (S (nextWrite s)) s.

(** [this.port.close(callback)] *)
Definition portClose (p : PromiseId) (s : State) : State :=
  let s := observe ClosePort s in
  set_closes (<[nextClose s := p]> (closes s)) (S (nextClose s)) s.

Definition park (p : PromiseId) (k : Continuation) (s : State) : State :=
  set_tasks (tasks s ++ [{| awaiting := p; continuation := k |}]) s.

(** ** The methods of SerialGCodePrinter *)

(** [initializeIPC(mainWindow)]: the handlers it registers forward to the
    methods below. *)
Definition initializeIPC (s : State) : State := set_mainWindow true s.

(** [sendErrorToRenderer(message)]; [mainWindow] is true while the window
    exists and is not destroyed. *)
Definition sendErrorToRenderer (text : string) (s : State) : State :=
  if mainWindow s then observe (RendererError text) s else s.

(** [if (this.timeoutId) { clearTimeout(this.timeoutId); this.timeoutId = null; }] *)
Definition clearPendingTimeout (s : State) : State :=
  match timeoutId s with
  | Some t => set_timeoutId None (clearTimeout t s)
  | None => s
  end.

(** [callback()] for an entry of [moveCompleteCallbacks]. *)
Definition invoke (cb : Callback) (s : State) : State :=
  match cb with
  | ResolveOf p => settle p Fulfilled s
  | Listener n => observe (Notify n None) s
  end.

(** What one such call shows in the trace. *)
Definition invoked (cb : Callback) : Obs :=
  match cb with
  | ResolveOf p => Settle p Fulfilled
  | Listener n => Notify n None
  end.

(** [callbacks.forEach(callback => callback())] *)
Definition invokeAll (cbs : list Callback) (s : State) : State :=
  fold_left (fun st cb => invoke cb st) cbs s.

(** [this.errorCallbacks.forEach(callback => callback(errorMessage))] *)
Definition notifyAll (listeners : list nat) (text : string) (s : State) : State :=
  fold_left (fun st n => observe (Notify n (Some text)) st) listeners s.

(** The branch of [processResponse] for the line [ok] (lines 176-192). *)
Definition onOk (s : State) : State :=
  let s := clearPendingTimeout s in
  let s := set_currentCommand None s in
  let s := invokeAll (moveCompleteCallbacks s) s in
  set_moveCompleteCallbacks [] s.

(** The branch of [processResponse] for an error line (lines 195-215). *)
Definition onErrorLine (line : string) (s : State) : State :=
  let errorMessage := Text.trim (Text.substringFrom 6 line) in
  let s := observe (LogText "Printer error:" errorMessage) s in
  let s := clearPendingTimeout s in
  let s := sendErrorToRenderer errorMessage s in
  let s := set_currentCommand None s in
  notifyAll (errorCallbacks s) errorMessage s.

Definition processResponse (line : string) (s : State) : State :=
  let s := if String.eqb line "ok" then onOk s else s in
  if Text.startsWith "Error:" line then onErrorLine line s else s.

(** The commands that are resolved as soon as they are written. *)
Definition expectsNoOk (command : string) : bool :=
  String.eqb command "M115" || Text.startsWith "M114" command.

Definition defaultTimeout : JSNumber := Decimal false 3 4.

Definition sendCommand (command : string) (timeout : option JSNumber) (s : State)
  : PromiseId * State :=
  let timeout := default defaultTimeout timeout in
  let '(p, s) := newPromise (observe (Call command) s) in
  if negb (isConnected s) || negb (bool_decide (is_Some (port s))) then
    let s := sendErrorToRenderer (message NotConnected) s in
    (p, settle p (Rejected NotConnected) s)
  else
    let s := set_currentCommand (Some command) s in
    (p, portWrite (command ++ Text.newline)
          {| wCommand := command; wTimeout := timeout; wPromise := p |} s).

(** The callback [sendCommand] hands to [port.write] (lines 234-264). *)
Definition onWritten (w : WriteClosure) (err : option string) (s : State) : State :=
  match err with
  | Some detail =>
      let s := observe (LogError "Error sending command:" (PortFailure detail)) s in
      let s := set_currentCommand None s in
      let s := sendErrorToRenderer ("Failed to send command: " ++ detail) s in
      settle (wPromise w) (Rejected (PortFailure detail)) s
  | None =>
      if expectsNoOk (wCommand w) then settle (wPromise w) Fulfilled s
      else
        (* this.onMoveComplete(resolve) *)
        let s := set_moveCompleteCallbacks
                   (moveCompleteCallbacks s ++ [ResolveOf (wPromise w)]) s in
        let '(t, s) := setTimeout (CommandTimeout (wCommand w) (wTimeout w) (wPromise w)) s in
        set_timeoutId (Some t) s
  end.

(** The function [sendCommand] hands to [setTimeout] (lines 252-261). *)
Definition onTimeout (command : string) (timeout : JSNumber) (p : PromiseId) (s : State)
  : State :=
  if bool_decide (currentCommand s = Some command) then
    let s := set_moveCompleteCallbacks
               (filter (fun cb => isNotResolveOf p cb = true) (moveCompleteCallbacks s)) s in
    let s := set_currentCommand None s in
    let timeoutError := TimedOut command timeout in
    let s := sendErrorToRenderer (message timeoutError) s in
    settle p (Rejected timeoutError) s
  else s.

Definition onMoveComplete (callback : Callback) (s : State) : State :=
  set_moveCompleteCallbacks (moveCompleteCallbacks s ++ [callback]) s.

Definition onError (listener : nat) (s : State) : State :=
  set_errorCallbacks (errorCallbacks s ++ [listener]) s.

(** [connect(portPath, options)]; [thrown] is the exception, if any, that
    constructing the port raises inside the [try]. *)
Definition connect (portPath : string) (thrown : option string) (s : State)
  : PromiseId * State :=
  let '(p, s) := newPromise s in
  match thrown with
  | None =>
      let s := set_port (Some {| path := portPath; opener := p |}) s in
      (p, observe (OpenPort portPath) s)
  | Some detail =>
      let s := observe (LogError "Error connecting to serial port:" (PortFailure detail)) s in
      let s := set_isConnected false s in
      let s := sendErrorToRenderer ("Connection error: " ++ detail) s in
      (p, settle p (Rejected (PortFailure detail)) s)
  end.

(** The handler of the port's [open] event (lines 132-147). *)
Definition onOpen (pt : Port) (s : State) : State :=
  let s := set_isConnected true s in
  let '(_, s) := setTimeout (Handshake (opener pt)) s in
  s.

(** The handler of the port's [error] event (lines 149-154). *)
Definition onPortError (pt : Port) (detail : string) (s : State) : State :=
  let s := observe (LogError "Serial port error:" (PortFailure detail)) s in
  let s := set_isConnected false s in
  let s := sendErrorToRenderer ("Serial port error: " ++ detail) s in
  settle (opener pt) (Rejected (PortFailure detail)) s.

Definition disconnect (s : State) : PromiseId * State :=
  let '(p, s) := newPromise s in
  if negb (isConnected s) then (p, settle p Fulfilled s)
  else
    let s := clearPendingTimeout s in
    match port s with
    | Some _ => (p, portClose p s)
    | None => (p, settle p (Rejected NoPort) s)
    end.

(** The callback [disconnect] hands to [port.close] (lines 300-311). *)
Definition onClosed (p : PromiseId) (err : option string) (s : State) : State :=
  match err with
  | Some detail =>
      let s := observe (LogError "Error disconnecting from printer:" (PortFailure detail)) s in
      let s := sendErrorToRenderer ("Disconnection error: " ++ detail) s in
      settle p (Rejected (PortFailure detail)) s
  | None =>
      let s := set_isConnected false s in
      let s := set_port None s in
      settle p Fulfilled s
  end.

(** [setHome(axes)]; the three flags are the truthiness of [axes.x],
    [axes.y] and [axes.z]. *)
Definition setHome (ax ay az : bool) (s : State) : PromiseId * State :=
  let command := "G28" in
  let command :=
    if ax || ay || az then
      let command := if ax then command ++ " X0" else command in
      let command := if ay then command ++ " Y0" else command in
      if az then command ++ " Z0" else command
    else command in
  sendCommand command None s.

Definition goHome (s : State) : PromiseId * State := sendCommand "G28" None s.

Definition setSpeed (speed : JSNumber) (s : State) : PromiseId * State :=
  let s := set_currentSpeed speed s in
  let '(p, s) := newPromise s in
  (p, settle p Fulfilled s).

Definition getSpeed (s : State) : JSNumber := currentSpeed s.

(** The command text [absoluteMove] (lines 370-380) and [deltaMove]
    (lines 399-409) build, by the same statements, from the axes and
    [this.currentSpeed]. *)
Definition moveText (rapid : bool) (a : Axes) (speed : JSNumber) : string :=
  let gcode := if rapid then "G0" else "G1" in
  let command := gcode in
  let command := match x a with Some v => command ++ " X" ++ toString v | None => command end in
  let command := match y a with Some v => command ++ " Y" ++ toString v | None => command end in
  let command := match z a with Some v => command ++ " Z" ++ toString v | None => command end in
  if isPositive speed then command ++ " F" ++ toString speed else command.

Definition absoluteMove (position : Axes) (rapid : bool) (s : State) : PromiseId * State :=
  sendCommand (moveText rapid position (currentSpeed s)) None s.

(** [await p] and the statements after it: run them now when [p] is
    already settled, park them otherwise. *)
Definition await (p : PromiseId) (k : Continuation)
    (run : Settlement -> State -> State) (s : State) : State :=
  match promiseState p s with
  | Some o => run o s
  | None => park p k s
  end.

(** [deltaMove] after the [await] of line 418: the failure of the restore
    is logged, the first error is thrown. *)
Definition deltaRestored (error : JSError) (result : PromiseId) (o : Settlement) (s : State)
  : State :=
  let s :=
    match o with
    | Rejected restoreError =>
        observe (LogError "Failed to restore absolute positioning after error:"
                   restoreError) s
    | Fulfilled => s
    end in
  settle result (Rejected error) s.

(** The [catch] block of [deltaMove] (lines 415-423). *)
Definition deltaCatch (error : JSError) (result : PromiseId) (s : State) : State :=
  let '(p, s) := sendCommand "G90" None s in
  await p (DeltaRestoring error result) (deltaRestored error result) s.

(** [deltaMove] after the [await] of line 411; the promise of the last
    [sendCommand] is returned without being awaited, so the promise of
    [deltaMove] follows it. *)
Definition deltaMoved (result : PromiseId) (o : Settlement) (s : State) : State :=
  match o with
  | Fulfilled =>
      let '(p, s) := sendCommand "G90" None s in
      await p (DeltaReturning result) (settle result) s
  | Rejected error => deltaCatch error result s
  end.

(** [deltaMove] after the [await] of line 397. *)
Definition deltaEntered (distance : Axes) (rapid : bool) (result : PromiseId)
    (o : Settlement) (s : State) : State :=
  match o with
  | Fulfilled =>
      let command := moveText rapid distance (currentSpeed s) in
      let '(p, s) := sendCommand command None s in
      await p (DeltaMoved result) (deltaMoved result) s
  | Rejected error => deltaCatch error result s
  end.

Definition deltaMove (distance : Axes) (rapid : bool) (s : State) : PromiseId * State :=
  let '(result, s) := newPromise s in
  let '(p, s) := sendCommand "G91" None s in
  (result, await p (DeltaEntered distance rapid result) (deltaEntered distance rapid result) s).

(** The timer function of [connect] after its [await] (lines 144-145); a
    rejection there is an unhandled one and [resolve(true)] is not reached. *)
Definition handshakeSent (connecting : PromiseId) (o : Settlement) (s : State) : State :=
  match o with
  | Fulfilled => settle connecting Fulfilled s
  | Rejected _ => s
  end.

(** The timer function of [connect] (lines 142-146). *)
Definition onHandshake (connecting : PromiseId) (s : State) : State :=
  let '(p, s) := sendCommand "M115" None s in
  await p (HandshakeSent connecting) (handshakeSent connecting) s.

(** ** The event loop *)

Definition resume (k : Continuation) (o : Settlement) (s : State) : State :=
  match k with
  | HandshakeSent connecting => handshakeSent connecting o s
  | DeltaEntered distance rapid result => deltaEntered distance rapid result o s
  | DeltaMoved result => deltaMoved result o s
  | DeltaReturning result => settle result o s
  | DeltaRestoring error result => deltaRestored error result o s
  end.

(** The parked continuations whose promise is settled run, in the order
    they were parked; the others stay parked. *)
Fixpoint resumeAll (ts : list Task) (s : State) : State :=
  match ts with
  | [] => s
  | t :: rest =>
      match promiseState (awaiting t) s with
      | Some o => resumeAll rest (resume (continuation t) o s)
      | None => resumeAll rest (park (awaiting t) (continuation t) s)
      end
  end.

Definition runMicrotasks (s : State) : State := resumeAll (tasks s) (set_tasks [] s).

(** The channels [initializeIPC] serves (lines 37-75) that reach the
    state of the client; each handler awaits the method of the same name. *)
Inductive Request : Type :=
| ConnectPrinter (portPath : string) (thrown : option string)
| DisconnectPrinter
| SetHome (ax ay az : bool)
| GoHome
| SetSpeed (speed : JSNumber)
| AbsoluteMove (position : Axes) (rapid : bool)
| DeltaMove (distance : Axes) (rapid : bool)
| SendCommand (command : string) (timeout : option JSNumber).

Definition serve (r : Request) (s : State) : PromiseId * State :=
  match r with
  | ConnectPrinter portPath thrown => connect portPath thrown s
  | DisconnectPrinter => disconnect s
  | SetHome ax ay az => setHome ax ay az s
  | GoHome => goHome s
  | SetSpeed speed => setSpeed speed s
  | AbsoluteMove position rapid => absoluteMove position rapid s
  | DeltaMove distance rapid => deltaMove distance rapid s
  | SendCommand command timeout => sendCommand command timeout s
  end.

(** What the environment can make happen. *)
Inductive Event : Type :=
| Requested (r : Request)                      (* the renderer invokes a channel *)
| PortOpened (pt : Port)                       (* the port emits 'open' *)
| PortErrored (pt : Port) (detail : string)    (* the port emits 'error' *)
| LineReceived (line : string)                 (* the parser emits 'data' *)
| Written (w : WriteId) (err : option string)  (* port.write calls back *)
| TimerFired (t : TimerId)                     (* a timer expires *)
| Closed (c : CloseId) (err : option string).  (* port.close calls back *)

Definition handle (ev : Event) (s : State) : State :=
  match ev with
  | Requested r => snd (serve r s)
  | PortOpened pt => onOpen pt s
  | PortErrored pt detail => onPortError pt detail s
  | LineReceived line => processResponse (Text.trim line) s
  | Written w err =>
      match writes s !! w with
      | Some closure => onWritten closure err (set_writes (delete w (writes s)) (nextWrite s) s)
      | None => s
      end
  | TimerFired t =>
      match timers s !! t with
      | Some (Handshake connecting) => onHandshake connecting (clearTimeout t s)
      | Some (CommandTimeout command timeout p) => onTimeout command timeout p (clearTimeout t s)
      | None => s
      end
  | Closed c err =>
      match closes s !! c with
      | Some p => onClosed p err (set_closes (delete c (closes s)) (nextClose s) s)
      | None => s
      end
  end.

(** One turn of the event loop: the handler, then the continuations it
    made runnable. *)
Definition step (ev : Event) (s : State) : State := runMicrotasks (handle ev s).

Definition run (evs : list Event) (s : State) : State := fold_left (fun st ev => step ev st) evs s.

(** ** What can still settle a promise

    Besides the entries of [moveCompleteCallbacks], a promise is settled
    only by a function the runtime holds: a timer function, a callback of
    the port, or an [async] function parked on an [await]. *)

(** The promise a timer function settles. *)
Definition timerTarget (b : TimerBody) : PromiseId :=
  match b with
  | Handshake connecting => connecting
  | CommandTimeout _ _ p => p
  end.

(** The promise a parked function settles when it ends. *)
Definition continuationTarget (k : Continuation) : PromiseId :=
  match k with
  | HandshakeSent connecting => connecting
  | DeltaEntered _ _ result => result
  | DeltaMoved result => result
  | DeltaReturning result => result
  | DeltaRestoring _ result => result
  end.

(** Promise [p] exists and no function the runtime holds settles it. *)
Definition forgotten (p : PromiseId) (s : State) : Prop :=
  p < nextPromise s
  /\ map_Forall (fun _ b => timerTarget b <> p) (timers s)
  /\ map_Forall (fun _ c => wPromise c <> p) (writes s)
  /\ map_Forall (fun _ q => q <> p) (closes s)
  /\ Forall (fun t => continuationTarget (continuation t) <> p) (tasks s).

(** [s'] still has [p] forgotten, has invoked nothing of it since [s], and
    has not registered its resolver if [s] had not. *)
Definition untouched (p : PromiseId) (s s' : State) : Prop :=
  forgotten p s'
  /\ invocations p (trace s') = invocations p (trace s)
  /\ (In (ResolveOf p) (moveCompleteCallbacks s') -> In (ResolveOf p) (moveCompleteCallbacks s)).

(** No event so far has anything to do with promise id [p]. *)
Definition unused (p : PromiseId) (s : State) : Prop :=
  invocations p (trace s) = []
  /\ ~ In (ResolveOf p) (moveCompleteCallbacks s)
  /\ map_Forall (fun _ b => timerTarget b <> p) (timers s)
  /\ map_Forall (fun _ c => wPromise c <> p) (writes s)
  /\ map_Forall (fun _ q => q <> p) (closes s)
  /\ Forall (fun t => continuationTarget (continuation t) <> p) (tasks s).

(** Promise [p] is forgotten and its resolver is not registered: nothing
    is left that could invoke its resolving functions. *)
Definition retired (p : PromiseId) (s : State) : Prop :=
  forgotten p s /\ ~ In (ResolveOf p) (moveCompleteCallbacks s).

(** The events of a port that [p] did not open, and all other events. *)
Definition foreign (p : PromiseId) (ev : Event) : Prop :=
  match ev with
  | PortOpened pt => opener pt <> p
  | PortErrored pt _ => opener pt <> p
  | _ => True
  end.

(** The events that cannot concern promise [p] of a command: every
    request, every line but the completion line, and the events of a port
    that [p] did not open. *)
Definition quiet (p : PromiseId) (ev : Event) : Prop :=
  match ev with
  | LineReceived line => Text.trim line <> "ok"
  | PortOpened pt => opener pt <> p
  | PortErrored pt _ => opener pt <> p
  | _ => True
  end.

(** ** Reachable states

    Promise ids are handed out in order, so every promise a reachable state
    mentions was made before: its id is below [nextPromise]. *)

(** Every promise the state mentions has an id below [n]. *)
Definition below (n : PromiseId) (s : State) : Prop :=
  (forall q o, In (Settle q o) (trace s) -> q < n)
  /\ (forall q, In (ResolveOf q) (moveCompleteCallbacks s) -> q < n)
  /\ map_Forall (fun _ b => timerTarget b < n) (timers s)
  /\ map_Forall (fun _ c => wPromise c < n) (writes s)
  /\ map_Forall (fun _ q => q < n) (closes s)
  /\ Forall (fun t => continuationTarget (continuation t) < n) (tasks s).

Definition tidy (s : State) : Prop := below (nextPromise s) s.

(** [s'] is tidy and has handed out no fewer promises than [s]. *)
Definition grows (s s' : State) : Prop := tidy s' /\ nextPromise s <= nextPromise s'.

(** The ports that emit events were made by [connect]. *)
Definition known (s : State) (ev : Event) : Prop :=
  match ev with
  | PortOpened pt => opener pt < nextPromise s
  | PortErrored pt _ => opener pt < nextPromise s
  | _ => True
  end.

(** The states of a client from its construction on: [initializeIPC] is
    called once, then the environment takes turns. *)
Inductive reachable : State -> Prop :=
| reach_initial : reachable (initializeIPC initial)
| reach_step ev s : reachable s -> known s ev -> reachable (step ev s).

(** Each event of the list is one of a known port when its turn comes. *)
Fixpoint knownAll (evs : list Event) (s : State) : Prop :=
  match evs with
  | [] => True
  | ev :: rest => known s ev /\ knownAll rest (step ev s)
  end.

(** ** The positioning page

    The script block of the page component.  [position], [absoluteMove] and
    [deltaMove] are variables holding references to objects, and
    [position = absoluteMove] copies the reference, so the objects live in a
    store.  A field holds a number or [null] (what a bound numeric input
    gives when it is empty), [None] here.  The arithmetic of the fields is
    that of JavaScript numbers and stays a parameter. *)

Module Page.

Section WithNumbers.

Variable num : Type.
Variable zero : num.
Variable add : num -> num -> num.

Definition Ref := nat.

Record Vec : Type := { vx : option num; vy : option num; vz : option num }.

Definition origin : Vec := {| vx := Some zero; vy := Some zero; vz := Some zero |}.

(** The messages handed to [addLog], by their translation key. *)
Inductive LogLine : Type :=
| NoPortSelected
| ConnectedToPort (selected : string)
| DisconnectedLine
| PositionSetAsHome
| MovingToHome
| SpeedSet (speed : option num)
| AbsoluteMoveLine (target : Vec)
| DeltaMoveLine (distance : Vec) (reached : Vec).

Record State : Type := mkState {
  position : Ref;
  speed : option num;
  ports : list string;
  selectedPort : string;
  isConnected : bool;
  logs : list LogLine;
  absoluteMove : Ref;
  deltaMove : Ref;
  store : gmap Ref Vec;
  nextRef : Ref
}.

(** The object a variable refers to. *)
Definition deref (r : Ref) (s : State) : Vec := default origin (store s !! r).

(** An object literal: a new object in the store. *)
Definition alloc (v : Vec) (s : State) : Ref * State :=
  (nextRef s,
   mkState (position s) (speed s) (ports s) (selectedPort s) (isConnected s) (logs s)
     (absoluteMove s) (deltaMove s) (<[nextRef s := v]> (store s)) (S (nextRef s))).

Definition set_position (r : Ref) (s : State) : State :=
  mkState r (speed s) (ports s) (selectedPort s) (isConnected s) (logs s)
    (absoluteMove s) (deltaMove s) (store s) (nextRef s).

Definition set_isConnected (b : bool) (s : State) : State :=
  mkState (position s) (speed s) (ports s) (selectedPort s) b (logs s)
    (absoluteMove s) (deltaMove s) (store s) (nextRef s).

Definition addLog (l : LogLine) (s : State) : State :=
  mkState (position s) (speed s) (ports s) (selectedPort s) (isConnected s) (logs s ++ [l])
    (absoluteMove s) (deltaMove s) (store s) (nextRef s).

(** The state the declarations and [initPorts] leave; [first] is the
    initial value of [speed], 1000. *)
Definition initial (first : num) : State :=
  {| position := 0; speed := Some first;
     ports := ["COM1"; "COM2"; "COM3"; "/dev/ttyUSB0"; "/dev/ttyUSB1"];
     selectedPort := ""; isConnected := false; logs := [];
     absoluteMove := 1; deltaMove := 2;
     store := <[0 := origin]> (<[1 := origin]> (<[2 := origin]> ∅));
     nextRef := 3 |}.

Definition handleConnect (s : State) : State :=
  if String.eqb (selectedPort s) "" then addLog NoPortSelected s
  else addLog (ConnectedToPort (selectedPort s)) (set_isConnected true s).

Definition handleDisconnect (s : State) : State :=
  addLog DisconnectedLine (set_isConnected false s).

Definition handleSetHome (s : State) : State :=
  let '(r, s) := alloc origin s in
  addLog PositionSetAsHome (set_position r s).

Definition handleGoHome (s : State) : State :=
  let s := addLog MovingToHome s in
  let '(r, s) := alloc origin s in
  set_position r s.

Definition handleSetSpeed (s : State) : State := addLog (SpeedSet (speed s)) s.

Definition handleAbsoluteMove (s : State) : State :=
  let s := set_position (absoluteMove s) s in
  addLog (AbsoluteMoveLine (deref (absoluteMove s) s)) s.

(** [position.x + Number(deltaMove.x)]: [null] counts as zero on both sides. *)
Definition plus (a b : option num) : option num :=
  Some (add (default zero a) (default zero b)).

Definition handleDeltaMove (s : State) : State :=
  let p := deref (position s) s in
  let d := deref (deltaMove s) s in
  let '(r, s) := alloc {| vx := plus (vx p) (vx d);
                          vy := plus (vy p) (vy d);
                          vz := plus (vz p) (vz d) |} s in
  let s := set_position r s in
  addLog (DeltaMoveLine d (deref r s)) s.

(** What the bound inputs do: [absoluteMove.x = value] and the like write
    a field of the object the variable refers to. *)
Inductive Axis : Type := AxisX | AxisY | AxisZ.

Definition setField (a : Axis) (value : option num) (v : Vec) : Vec :=
  match a with
  | AxisX => {| vx := value; vy := vy v; vz := vz v |}
  | AxisY => {| vx := vx v; vy := value; vz := vz v |}
  | AxisZ => {| vx := vx v; vy := vy v; vz := value |}
  end.

Definition writeField (r : Ref) (a : Axis) (value : option num) (s : State) : State :=
  mkState (position s) (speed s) (ports s) (selectedPort s) (isConnected s) (logs s)
    (absoluteMove s) (deltaMove s) (<[r := setField a value (deref r s)]> (store s)) (nextRef s).

Definition inputAbsoluteMove (a : Axis) (value : option num) (s : State) : State :=
  writeField (absoluteMove s) a value s.

Definition inputDeltaMove (a : Axis) (value : option num) (s : State) : State :=
  writeField (deltaMove s) a value s.

Definition selectPort (name : string) (s : State) : State :=
  mkState (position s) (speed s) (ports s) name (isConnected s) (logs s)
    (absoluteMove s) (deltaMove s) (store s) (nextRef s).

(** The value of the variable [position]: the object it refers to.  This
    is the cached position, the variable itself and not what the status
    panel has rendered. *)
Definition positionValue (s : State) : Vec := deref (position s) s.

(** The buttons, each with the handler its [on:click] names. *)
Inductive Button : Type :=
| ConnectButton
| DisconnectButton
| SetHomeButton
| GoHomeButton
| SetSpeedButton
| AbsoluteMoveButton
| DeltaMoveButton.

Definition onClick (b : Button) : State -> State :=
  match b with
  | ConnectButton => handleConnect
  | DisconnectButton => handleDisconnect
  | SetHomeButton => handleSetHome
  | GoHomeButton => handleGoHome
  | SetSpeedButton => handleSetSpeed
  | AbsoluteMoveButton => handleAbsoluteMove
  | DeltaMoveButton => handleDeltaMove
  end.

(** The [disabled] attribute of a button: [isConnected || !selectedPort]
    for Connect, [!isConnected] for the others. *)
Definition disabled (b : Button) (s : State) : bool :=
  match b with
  | ConnectButton => isConnected s || String.eqb (selectedPort s) ""
  | _ => negb (isConnected s)
  end.

(** A click: a disabled button runs no handler. *)
Definition press (b : Button) (s : State) : State :=
  if disabled b s then s else onClick b s.

(** The port selector, [disabled] while the page is connected. *)
Definition choosePort (name : string) (s : State) : State :=
  if isConnected s then s else selectPort name s.

End WithNumbers.

End Page.

(** The page and the client side by side.  No handler of the page calls
    into the client: a click changes the page and nothing else. *)
Record Application : Type := { page : Page.State Z; printer : State }.

Definition click (b : Page.Button) (a : Application) : Application :=
  {| page := Page.press Z 0%Z Z.add b (page a); printer := printer a |}.

(** ** The client between two commands of a sequence *)

(** The client after [command] was issued on [h] with the default timeout,
    written, and answered by [ok]: every registered resolver was invoked,
    that of the command last, and its timer is gone. *)
Definition answered (command : string) (h : State) : State :=
  set_moveCompleteCallbacks []
    (set_trace (trace h
                ++ Call command :: PortWrite (command ++ Text.newline)
                :: map invoked (moveCompleteCallbacks h)
                ++ [Settle (nextPromise h) Fulfilled])%list
       (set_currentCommand None
          (set_timeoutId None
             (set_timers (delete (nextTimer h)
                            (<[nextTimer h := CommandTimeout command defaultTimeout
                                                (nextPromise h)]> (timers h)))
                (S (nextTimer h))
                (set_writes (delete (nextWrite h)
                               (<[nextWrite h := {| wCommand := command;
                                                    wTimeout := defaultTimeout;
                                                    wPromise := nextPromise h |}]> (writes h)))
                   (S (nextWrite h))
                   (set_nextPromise (S (nextPromise h)) h)))))).

(** The state with the functions [ts] parked before those of [s]. *)
Definition withTasks (ts : list Task) (s : State) : State := set_tasks (ts ++ tasks s)%list s.


(** ** Scenarios

    States the client and the page reach from their initial ones, used
    below where a property is shown on a concrete run. *)

(** The port of the first [connect]. *)
Definition port1 : Port := {| path := "PORT1"; opener := 0 |}.

(** What happens up to the end of the handshake: the renderer asks to
    connect, the port opens, the timer of the handshake fires, [M115] is
    written and the printer answers [ok]. *)
Definition connecting : list Event :=
  [Requested (ConnectPrinter "PORT1" None); PortOpened port1; TimerFired 0;
   Written 0 None; LineReceived "ok"].

(** A connected, idle client.  Promise 0 is that of [connect], promise 1
    that of [M115]. *)
Definition connectedIdle : State := run connecting (initializeIPC initial).

(** [G1 X10] issued on it and written: the command is pending, with
    promise 2 and timer 1. *)
Definition pendingG1 : State :=
  handle (Written 1 None) (snd (sendCommand "G1 X10" None connectedIdle)).

(** Two issuances of [G90], the second made while the first is pending:
    promises 2 and 3, timers 1 and 2. *)
Definition twiceG90 : State :=
  handle (Written 2 None)
    (snd (sendCommand "G90" (Some (Decimal false 5 3))
            (handle (Written 1 None)
               (snd (sendCommand "G90" (Some (Decimal false 1 3)) connectedIdle))))).



(** The page once a port is chosen and Connect is clicked: it is marked
    connected, and its buttons are enabled. *)
Definition connectedPage : Page.State Z :=
  Page.press Z 0%Z Z.add Page.ConnectButton
    (Page.choosePort Z "COM1" (Page.initial Z 0%Z 1000%Z)).

(** That page after 10 is typed into the x field of the absolute move,
    beside the client, which the page has not called. *)
Definition typedTarget : Application :=
  {| page := Page.inputAbsoluteMove Z 0%Z Page.AxisX (Some 10%Z) connectedPage;
     printer := initial |}.

(** * Properties *)

(** ** Text and numbers *)













(** [Number::toString] on the values the specification names, and at the
    edges of its notations. *)
Example toString_examples :
  toString (Decimal false 125 (-1)) = "12.5"
  /\ toString (Decimal true 3 0) = "-3"
  /\ toString (Decimal false 1 3) = "1000"
  /\ toString defaultTimeout = "30000"
  /\ toString (Decimal false 5 (-3)) = "0.005"
  /\ toString (Decimal false 1 (-6)) = "0.000001"
  /\ toString (Decimal false 15 (-8)) = "1.5e-7"
  /\ toString (Decimal false 1 20) = "100000000000000000000"
  /\ toString (Decimal false 1 21) = "1e+21"
  /\ toString (Infinity true) = "-Infinity".
Proof. repeat split. Qed.

Example trim_examples :
  Text.trim "  ok  " = "ok"
  /\ Text.trim (String "009" "Error: x" ++ Text.newline) = "Error: x"
  /\ Text.trim (Text.substringFrom 6 "Error:  Printer halted ") = "Printer halted"
  /\ Text.startsWith "Error:" "Error" = false.
Proof. repeat split. Qed.

(** ** Traces *)

Lemma invocations_app p a b :
  invocations p (a ++ b)%list = (invocations p a ++ invocations p b)%list.
Proof.
  induction a as [|o a IH]; simpl; [reflexivity|].
  destruct (settles p o); simpl; rewrite IH; reflexivity.
Qed.

Lemma attempts_app a b : attempts (a ++ b)%list = (attempts a ++ attempts b)%list.
Proof.
  induction a as [|o a IH]; simpl; [reflexivity|].
  destruct o; simpl; rewrite IH; reflexivity.
Qed.

Lemma wire_app a b : wire (a ++ b)%list = (wire a ++ wire b)%list.
Proof.
  induction a as [|o a IH]; simpl; [reflexivity|].
  destruct o; simpl; rewrite IH; reflexivity.
Qed.








(** ** The command builder *)



(** ** The correlator *)

Lemma invokeAll_trace cbs s :
  invokeAll cbs s = set_trace (trace s ++ map invoked cbs)%list s.
Proof.
  unfold invokeAll. revert s. induction cbs as [|cb cbs IH]; intros s; simpl.
  - rewrite app_nil_r. destruct s; reflexivity.
  - rewrite IH. destruct cb; simpl; rewrite <- app_assoc; reflexivity.
Qed.

Lemma notifyAll_trace listeners text s :
  notifyAll listeners text s
  = set_trace (trace s ++ map (fun n => Notify n (Some text)) listeners)%list s.
Proof.
  unfold notifyAll. revert s. induction listeners as [|n ls IH]; intros s; simpl.
  - rewrite app_nil_r. destruct s; reflexivity.
  - rewrite IH. simpl. rewrite <- app_assoc. reflexivity.
Qed.

Lemma invocations_notified p text listeners :
  invocations p (map (fun n => Notify n (Some text)) listeners) = [].
Proof. induction listeners; simpl; auto. Qed.

Lemma startsWith_split p s :
  Text.startsWith p s = true -> exists rest, s = p ++ rest.
Proof.
  revert s. induction p as [|a p IH]; intros s H; simpl in *; [eauto|].
  destruct s as [|b s]; [discriminate H|].
  apply andb_prop in H as [Hab Hp]. apply Ascii.eqb_eq in Hab as ->.
  destruct (IH s Hp) as [rest ->]. eauto.
Qed.

Lemma startsWith_Error_not_ok line :
  Text.startsWith "Error:" line = true -> String.eqb line "ok" = false.
Proof. intros H. apply startsWith_split in H as [rest ->]. reflexivity. Qed.

Lemma clearPendingTimeout_fields s :
  timeoutId (clearPendingTimeout s) = None
  /\ (forall t, timeoutId s = Some t -> timers (clearPendingTimeout s) !! t = None)
  /\ trace (clearPendingTimeout s) = trace s
  /\ currentCommand (clearPendingTimeout s) = currentCommand s
  /\ moveCompleteCallbacks (clearPendingTimeout s) = moveCompleteCallbacks s
  /\ errorCallbacks (clearPendingTimeout s) = errorCallbacks s
  /\ mainWindow (clearPendingTimeout s) = mainWindow s
  /\ isConnected (clearPendingTimeout s) = isConnected s
  /\ port (clearPendingTimeout s) = port s.
Proof.
  unfold clearPendingTimeout, clearTimeout. destruct (timeoutId s) as [t|] eqn:E; simpl.
  - repeat apply conj; try reflexivity. intros t' [= <-]. apply lookup_delete_eq.
  - repeat apply conj; try assumption; try reflexivity. discriminate.
Qed.

(** The state an error line leaves (lines 195-215). *)
Lemma onErrorLine_state line s :
  onErrorLine line s
  = let errorMessage := Text.trim (Text.substringFrom 6 line) in
    set_trace (trace s
        ++ LogText "Printer error:" errorMessage
        :: (if mainWindow s then [RendererError errorMessage] else [])
        ++ map (fun n => Notify n (Some errorMessage)) (errorCallbacks s))%list
      (set_currentCommand None (clearPendingTimeout s)).
Proof.
  unfold onErrorLine. rewrite notifyAll_trace.
  unfold sendErrorToRenderer, clearPendingTimeout, clearTimeout, observe.
  destruct s as [? ? ? ? ? ? tid win ? ? ? ? ? ? ? ? ?]; simpl.
  destruct tid, win; simpl; rewrite <- ?app_assoc; simpl; reflexivity.
Qed.

Lemma processResponse_error line s :
  Text.startsWith "Error:" line = true -> processResponse line s = onErrorLine line s.
Proof.
  intros H. unfold processResponse. rewrite (startsWith_Error_not_ok line H), H. reflexivity.
Qed.

(** The state the line [ok] leaves (lines 176-192). *)
Lemma processResponse_ok s :
  processResponse "ok" s
  = set_moveCompleteCallbacks []
      (set_trace (trace s ++ map invoked (moveCompleteCallbacks s))%list
         (set_currentCommand None (clearPendingTimeout s))).
Proof.
  unfold processResponse. simpl. unfold onOk. rewrite invokeAll_trace.
  unfold clearPendingTimeout, clearTimeout.
  destruct s as [? ? ? ? ? ? tid ? ? ? ? ? ? ? ? ? ?]; simpl.
  destruct tid; reflexivity.
Qed.

(** [sendCommand] on a connected client (lines 231-234). *)
Lemma sendCommand_connected command timeout s :
  isConnected s = true -> is_Some (port s) ->
  sendCommand command timeout s
  = (nextPromise s,
     set_writes (<[nextWrite s := {| wCommand := command;
                                     wTimeout := default defaultTimeout timeout;
                                     wPromise := nextPromise s |}]> (writes s))
       (S (nextWrite s))
       (set_trace (trace s ++ [Call command; PortWrite (command ++ Text.newline)])%list
          (set_currentCommand (Some command) (set_nextPromise (S (nextPromise s)) s)))).
Proof.
  intros Hc [pt Hp]. unfold sendCommand, newPromise, portWrite, observe. simpl.
  rewrite Hc, Hp. simpl. rewrite <- app_assoc. reflexivity.
Qed.

(** [sendCommand] on a client that is not connected (lines 225-229). *)
Lemma sendCommand_disconnected command timeout s :
  isConnected s = false \/ port s = None ->
  sendCommand command timeout s
  = (nextPromise s,
     set_trace (trace s ++ Call command
                  :: (if mainWindow s then [RendererError (message NotConnected)] else [])
                  ++ [Settle (nextPromise s) (Rejected NotConnected)])%list
       (set_nextPromise (S (nextPromise s)) s)).
Proof.
  intros H. unfold sendCommand, newPromise, settle, sendErrorToRenderer, observe. simpl.
  assert (negb (isConnected s) || negb (bool_decide (is_Some (port s))) = true) as ->.
  { destruct H as [-> | ->]; [reflexivity|]. apply orb_true_r. }
  destruct s as [? ? ? ? ? ? ? win ? ? ? ? ? ? ? ? ?]; simpl.
  destruct win; simpl; rewrite <- ?app_assoc; reflexivity.
Qed.

(** The write callback of a command that waits for [ok], on success
    (lines 249-261): the resolver is pushed and the timer armed. *)
Lemma handle_Written_waits w c s :
  writes s !! w = Some c -> expectsNoOk (wCommand c) = false ->
  handle (Written w None) s
  = set_timeoutId (Some (nextTimer s))
      (set_timers (<[nextTimer s := CommandTimeout (wCommand c) (wTimeout c) (wPromise c)]>
                     (timers s)) (S (nextTimer s))
         (set_moveCompleteCallbacks (moveCompleteCallbacks s ++ [ResolveOf (wPromise c)])%list
            (set_writes (delete w (writes s)) (nextWrite s) s))).
Proof.
  intros Hw Hc. unfold handle. rewrite Hw. unfold onWritten. rewrite Hc. reflexivity.
Qed.

(** The timer of a command whose text is the current one (lines 254-259). *)
Lemma handle_TimerFired_current t command timeout p s :
  timers s !! t = Some (CommandTimeout command timeout p) ->
  currentCommand s = Some command ->
  handle (TimerFired t) s
  = set_trace (trace s
               ++ (if mainWindow s then [RendererError (message (TimedOut command timeout))]
                   else [])
               ++ [Settle p (Rejected (TimedOut command timeout))])%list
      (set_currentCommand None
         (set_moveCompleteCallbacks
            (filter (fun cb => isNotResolveOf p cb = true) (moveCompleteCallbacks s))
            (set_timers (delete t (timers s)) (nextTimer s) s))).
Proof.
  intros Ht Hc. unfold handle. rewrite Ht. unfold onTimeout, clearTimeout. simpl.
  rewrite Hc, bool_decide_eq_true_2 by reflexivity.
  unfold settle, sendErrorToRenderer, observe.
  destruct s as [? ? ? ? ? ? ? win ? ? ? ? ? ? ? ? ?]; simpl.
  destruct win; simpl; rewrite <- ?app_assoc; reflexivity.
Qed.

(** The timer of a command whose text is not the current one: the guard
    of line 254 fails and only the timer is gone. *)
Lemma handle_TimerFired_stale t command timeout p s :
  timers s !! t = Some (CommandTimeout command timeout p) ->
  currentCommand s <> Some command ->
  handle (TimerFired t) s = set_timers (delete t (timers s)) (nextTimer s) s.
Proof.
  intros Ht Hc. unfold handle. rewrite Ht. unfold onTimeout, clearTimeout. simpl.
  rewrite bool_decide_eq_false_2 by exact Hc. reflexivity.
Qed.

(** What an error line does, whatever is pending. *)
Lemma error_line_rejects_nothing_aux (line : string) (s : State) :
  Text.startsWith "Error:" line = true ->
  let errorMessage := Text.trim (Text.substringFrom 6 line) in
  let s' := processResponse line s in
  currentCommand s' = None
  /\ timeoutId s' = None
  /\ (forall t, timeoutId s = Some t -> timers s' !! t = None)
  /\ trace s'
     = (trace s
        ++ LogText "Printer error:" errorMessage
        :: (if mainWindow s then [RendererError errorMessage] else [])
        ++ map (fun n => Notify n (Some errorMessage)) (errorCallbacks s))%list
  /\ (forall p, invocations p (trace s') = invocations p (trace s))
  /\ moveCompleteCallbacks s' = moveCompleteCallbacks s.
Proof.
  intros Hprefix errorMessage s'. subst s'.
  rewrite (processResponse_error line s Hprefix), onErrorLine_state. fold errorMessage.
  destruct (clearPendingTimeout_fields s) as (Hid & Htimer & _ & _ & Hcbs & _).
  simpl. repeat apply conj; try assumption; try reflexivity.
  intros p. rewrite invocations_app. simpl. rewrite invocations_app, invocations_notified.
  destruct (mainWindow s); simpl; rewrite app_nil_r; reflexivity.
Qed.

(** C3.  An error line that arrives while a command is pending: the
    message is the text after the prefix, trimmed; the timer is cancelled
    and the slot is cleared; the message goes to the log, the renderer and
    the error listeners.  The continuation of the pending command is not
    invoked: no [reject] reaches any promise, and the command's [resolve]
    stays in [moveCompleteCallbacks]. *)
Theorem error_line_rejects_nothing (line command : string) (s : State) :
  Text.startsWith "Error:" line = true ->
  currentCommand s = Some command ->
  let errorMessage := Text.trim (Text.substringFrom 6 line) in
  let s' := processResponse line s in
  currentCommand s' = None
  /\ timeoutId s' = None
  /\ (forall t, timeoutId s = Some t -> timers s' !! t = None)
  /\ trace s'
     = (trace s
        ++ LogText "Printer error:" errorMessage
        :: (if mainWindow s then [RendererError errorMessage] else [])
        ++ map (fun n => Notify n (Some errorMessage)) (errorCallbacks s))%list
  /\ (forall p, invocations p (trace s') = invocations p (trace s))
  /\ moveCompleteCallbacks s' = moveCompleteCallbacks s.
Proof. intros Hprefix _. exact (error_line_rejects_nothing_aux line s Hprefix). Qed.

Lemma error_line_rejects_nothing_witness :
  currentCommand pendingG1 = Some "G1 X10"
  /\ promiseState 2 (processResponse "Error: Printer halted" pendingG1) = None
  /\ moveCompleteCallbacks (processResponse "Error: Printer halted" pendingG1) = [ResolveOf 2]
  /\ timers (processResponse "Error: Printer halted" pendingG1) !! 1 = None.
Proof.
  pose proof (error_line_rejects_nothing "Error: Printer halted" "G1 X10" pendingG1
                eq_refl eq_refl) as (_ & _ & Htimer & _ & Hinv & Hcbs).
  split; [reflexivity|]. split; [|split].
  - unfold promiseState. rewrite Hinv. reflexivity.
  - rewrite Hcbs. reflexivity.
  - apply Htimer. reflexivity.
Defined.

(** The client right after [sendCommand] and the success of the write:
    the command is the pending one, its resolver is registered and its timer
    is armed. *)
Lemma issued_state command timeout s :
  isConnected s = true -> is_Some (port s) -> expectsNoOk command = false ->
  handle (Written (nextWrite s) None) (snd (sendCommand command timeout s))
  = set_timeoutId (Some (nextTimer s))
      (set_timers (<[nextTimer s := CommandTimeout command (default defaultTimeout timeout)
                                      (nextPromise s)]> (timers s)) (S (nextTimer s))
         (set_moveCompleteCallbacks (moveCompleteCallbacks s ++ [ResolveOf (nextPromise s)])%list
            (set_writes (delete (nextWrite s)
                           (<[nextWrite s := {| wCommand := command;
                                                wTimeout := default defaultTimeout timeout;
                                                wPromise := nextPromise s |}]> (writes s)))
               (S (nextWrite s))
               (set_trace (trace s ++ [Call command; PortWrite (command ++ Text.newline)])%list
                  (set_currentCommand (Some command)
                     (set_nextPromise (S (nextPromise s)) s)))))).
Proof.
  intros Hc Hp Hcmd. rewrite (sendCommand_connected command timeout s Hc Hp). cbn [snd].
  rewrite (handle_Written_waits (nextWrite s)
             {| wCommand := command; wTimeout := default defaultTimeout timeout;
                wPromise := nextPromise s |}).
  - reflexivity.
  - simpl. apply lookup_insert_eq.
  - exact Hcmd.
Qed.

Lemma resolver_invoked q cbs :
  In (ResolveOf q) cbs -> In Fulfilled (invocations q (map invoked cbs)).
Proof.
  induction cbs as [|cb cbs IH]; simpl; [tauto|].
  intros [-> | H].
  - simpl. rewrite Nat.eqb_refl. left. reflexivity.
  - destruct (settles q (invoked cb)); [right|]; auto.
Qed.

(** C2 as the code has it.  [sendCommand] has no busy guard: a command
    issued while another is pending is written to the port and takes the
    slot; nothing is rejected; the resolver and the timer of the first
    command stay as they are, and the next [ok] line resolves it.  When the
    two texts differ, the timer of the first command finds another text in
    the slot and no longer rejects it. *)
Theorem second_command_is_sent (first second : string) (timeout : option JSNumber)
    (s : State) :
  isConnected s = true -> is_Some (port s) -> currentCommand s = Some first ->
  let s' := snd (sendCommand second timeout s) in
  wire (trace s') = (wire (trace s) ++ [(second ++ Text.newline)%string])%list
  /\ currentCommand s' = Some second
  /\ (forall q, invocations q (trace s') = invocations q (trace s))
  /\ moveCompleteCallbacks s' = moveCompleteCallbacks s
  /\ timers s' = timers s
  /\ timeoutId s' = timeoutId s
  /\ (forall q, In (ResolveOf q) (moveCompleteCallbacks s) ->
                In Fulfilled (invocations q (trace (processResponse "ok" s'))))
  /\ (forall t duration q,
        timers s !! t = Some (CommandTimeout first duration q) -> first <> second ->
        handle (TimerFired t) s' = set_timers (delete t (timers s')) (nextTimer s') s').
Proof.
  intros Hc Hp _ s'. subst s'. rewrite (sendCommand_connected second timeout s Hc Hp).
  cbn [snd]. repeat apply conj; try reflexivity.
  - simpl. rewrite wire_app. reflexivity.
  - intros q. simpl. rewrite invocations_app. simpl. apply app_nil_r.
  - intros q Hq. rewrite processResponse_ok. simpl.
    rewrite invocations_app. apply in_or_app. right.
    apply resolver_invoked. exact Hq.
  - intros t duration q Ht Hne.
    apply (handle_TimerFired_stale t first duration q); [exact Ht|].
    simpl. congruence.
Qed.

Lemma second_command_is_sent_witness :
  wire (trace (snd (sendCommand "G1 X20" None pendingG1)))
  = ["M115" ++ Text.newline; "G1 X10" ++ Text.newline; "G1 X20" ++ Text.newline]
  /\ In Fulfilled
       (invocations 2 (trace (processResponse "ok" (snd (sendCommand "G1 X20" None pendingG1))))).
Proof.
  assert (Hport : is_Some (port pendingG1)) by (eexists; reflexivity).
  pose proof (second_command_is_sent "G1 X10" "G1 X20" None pendingG1 eq_refl Hport eq_refl)
    as (Hwire & _ & _ & _ & _ & _ & Hok & _).
  split; [exact Hwire|]. apply Hok. vm_compute. auto.
Defined.

(** C2 as stated fails: with [G1 X10] pending, a second command is not
    refused.  Its promise is pending, not rejected, its text went to the
    port, and it took the slot. *)
Lemma second_command_not_refused :
  currentCommand pendingG1 = Some "G1 X10"
  /\ promiseState 2 pendingG1 = None
  /\ promiseState (fst (sendCommand "G1 X20" None pendingG1))
       (snd (sendCommand "G1 X20" None pendingG1)) = None
  /\ wire (trace (snd (sendCommand "G1 X20" None pendingG1)))
     = ["M115" ++ Text.newline; "G1 X10" ++ Text.newline; "G1 X20" ++ Text.newline]
  /\ currentCommand (snd (sendCommand "G1 X20" None pendingG1)) = Some "G1 X20".
Proof. vm_compute. repeat split. Qed.

(** ** Transport errors and disconnection *)

Lemma handle_PortErrored pt detail s :
  handle (PortErrored pt detail) s
  = set_trace (trace s
               ++ LogError "Serial port error:" (PortFailure detail)
               :: (if mainWindow s then [RendererError ("Serial port error: " ++ detail)] else [])
               ++ [Settle (opener pt) (Rejected (PortFailure detail))])%list
      (set_isConnected false s).
Proof.
  unfold handle, onPortError, settle, sendErrorToRenderer, observe.
  destruct s as [? ? ? ? ? ? ? win ? ? ? ? ? ? ? ? ?]; simpl.
  destruct win; simpl; rewrite <- ?app_assoc; reflexivity.
Qed.

Lemma invocations_renderer p (b : bool) text :
  invocations p (if b then [RendererError text] else []) = [].
Proof. destruct b; reflexivity. Qed.

(** C6 as the code has it.  The [error] event of the port makes the client
    disconnected at once and rejects only the promise of [connect].  A
    pending command is not resolved by it: its slot, its resolver and its
    timer stay as they are, so it is rejected as timed out when its timer
    fires.  A command issued afterwards is rejected as not connected and
    nothing is written for it. *)
Theorem port_error_leaves_command_pending (pt : Port) (detail : string) (s : State) :
  let s' := handle (PortErrored pt detail) s in
  isConnected s' = false
  /\ currentCommand s' = currentCommand s
  /\ moveCompleteCallbacks s' = moveCompleteCallbacks s
  /\ timers s' = timers s
  /\ timeoutId s' = timeoutId s
  /\ (forall q, q <> opener pt -> invocations q (trace s') = invocations q (trace s))
  /\ (forall t command timeout p,
        timers s !! t = Some (CommandTimeout command timeout p) ->
        currentCommand s = Some command ->
        invocations p (trace (handle (TimerFired t) s'))
        = (invocations p (trace s') ++ [Rejected (TimedOut command timeout)])%list)
  /\ (forall command timeout,
        let r := sendCommand command timeout s' in
        invocations (fst r) (trace (snd r))
        = (invocations (fst r) (trace s') ++ [Rejected NotConnected])%list
        /\ wire (trace (snd r)) = wire (trace s')
        /\ currentCommand (snd r) = currentCommand s).
Proof.
  intros s'. subst s'. rewrite handle_PortErrored.
  repeat apply conj; try reflexivity.
  - intros q Hq. simpl. rewrite invocations_app. simpl.
    rewrite invocations_app, invocations_renderer. simpl.
    destruct (Nat.eqb_spec (opener pt) q) as [E|_]; [congruence|]. apply app_nil_r.
  - intros t command timeout p Ht Hcmd.
    erewrite handle_TimerFired_current; [|exact Ht|exact Hcmd].
    cbn [trace set_trace]. rewrite !invocations_app, !invocations_renderer. simpl.
    rewrite Nat.eqb_refl, ?app_nil_r. reflexivity.
  - intros command timeout r. subst r.
    rewrite sendCommand_disconnected by (left; reflexivity).
    cbn [fst snd trace set_trace]. repeat apply conj.
    + rewrite !invocations_app. simpl. rewrite !invocations_app, !invocations_renderer. simpl.
      rewrite Nat.eqb_refl, ?app_nil_r. reflexivity.
    + rewrite !wire_app. simpl. rewrite !wire_app.
      destruct (mainWindow s); simpl; rewrite !app_nil_r; reflexivity.
    + reflexivity.
Qed.

(** C6 as stated fails: with [G1 X10] pending, the [error] event of the
    port disconnects the client and leaves the promise of the command
    pending, with its timer still armed. *)
Lemma port_error_rejects_no_command :
  let s := handle (PortErrored port1 "device unplugged") pendingG1 in
  promiseState 2 pendingG1 = None
  /\ isConnected s = false
  /\ promiseState 2 s = None
  /\ invocations 2 (trace s) = []
  /\ timers s !! 1 = Some (CommandTimeout "G1 X10" defaultTimeout 2).
Proof. vm_compute. repeat split. Qed.

Lemma disconnect_disconnected s :
  isConnected s = false ->
  disconnect s
  = (nextPromise s,
     set_trace (trace s ++ [Settle (nextPromise s) Fulfilled])%list
       (set_nextPromise (S (nextPromise s)) s)).
Proof.
  intros H. unfold disconnect, newPromise, settle, observe. simpl. rewrite H. reflexivity.
Qed.

Lemma disconnect_connected s :
  isConnected s = true -> is_Some (port s) ->
  disconnect s
  = (nextPromise s,
     set_closes (<[nextClose s := nextPromise s]> (closes s)) (S (nextClose s))
       (set_trace (trace s ++ [ClosePort])%list
          (clearPendingTimeout (set_nextPromise (S (nextPromise s)) s)))).
Proof.
  intros Hc [pt Hp]. unfold disconnect, newPromise, portClose, observe. simpl. rewrite Hc. simpl.
  destruct (clearPendingTimeout_fields (set_nextPromise (S (nextPromise s)) s))
    as (_ & _ & _ & _ & _ & _ & _ & _ & Hport).
  rewrite Hport. simpl. rewrite Hp.
  unfold clearPendingTimeout, clearTimeout.
  destruct s as [? ? ? ? ? ? tid ? ? ? ? ? ? ? ? ? ?]; simpl. destruct tid; reflexivity.
Qed.

(** C7 as the code has it.  [disconnect] on a client that is not connected
    only returns a fulfilled promise.  On a connected client it cancels the
    pending timer and closes the port; the slot and the resolver of a
    pending command are left as they are and no continuation other than its
    own is invoked, then or when the close succeeds; the client is
    disconnected, and the promise of [disconnect] fulfilled, when the close
    calls back without an error. *)
Theorem disconnect_leaves_command_pending (s : State) :
  let d := fst (disconnect s) in
  let s' := snd (disconnect s) in
  let s'' := handle (Closed (nextClose s) None) s' in
  (isConnected s = false ->
     s' = set_trace (trace s ++ [Settle d Fulfilled])%list
            (set_nextPromise (S (nextPromise s)) s))
  /\ (isConnected s = true -> is_Some (port s) ->
        timeoutId s' = None
        /\ (forall t, timeoutId s = Some t -> timers s' !! t = None)
        /\ trace s' = (trace s ++ [ClosePort])%list
        /\ isConnected s' = true
        /\ currentCommand s' = currentCommand s
        /\ moveCompleteCallbacks s' = moveCompleteCallbacks s
        /\ isConnected s'' = false
        /\ port s'' = None
        /\ trace s'' = (trace s ++ [ClosePort; Settle d Fulfilled])%list
        /\ currentCommand s'' = currentCommand s
        /\ moveCompleteCallbacks s'' = moveCompleteCallbacks s
        /\ timers s'' = timers s').
Proof.
  intros d s' s''. split.
  - intros H. subst s' d. rewrite (disconnect_disconnected s H). reflexivity.
  - intros Hc Hp. subst s'' s' d. rewrite (disconnect_connected s Hc Hp). cbn [fst snd].
    destruct (clearPendingTimeout_fields (set_nextPromise (S (nextPromise s)) s))
      as (Hid & Htimer & Htrace & Hcmd & Hcbs & _ & _ & Hconn & _).
    unfold handle. cbn [closes set_closes]. rewrite lookup_insert_eq.
    unfold onClosed, settle, observe. cbn -[clearPendingTimeout].
    rewrite Hid, Hcmd, Hcbs, Hconn, <- app_assoc. cbn -[clearPendingTimeout].
    repeat apply conj; try reflexivity; try assumption.
Qed.

Lemma disconnect_leaves_command_pending_witness :
  let s' := snd (disconnect pendingG1) in
  timers s' !! 1 = None
  /\ currentCommand s' = Some "G1 X10"
  /\ isConnected (handle (Closed 0 None) s') = false.
Proof.
  assert (Hport : is_Some (port pendingG1)) by (eexists; reflexivity).
  pose proof (proj2 (disconnect_leaves_command_pending pendingG1) eq_refl Hport)
    as (_ & Htimer & _ & _ & Hcmd & _ & Hconn & _).
  repeat apply conj.
  - apply Htimer. reflexivity.
  - exact Hcmd.
  - exact Hconn.
Defined.

(** C7 as stated fails: with [G1 X10] pending, [disconnect] followed by the
    success of the close leaves the promise of the command pending.  Its
    timer is gone, so nothing will settle it. *)
Lemma disconnect_rejects_no_command :
  let s := handle (Closed 0 None) (snd (disconnect pendingG1)) in
  promiseState 2 pendingG1 = None
  /\ isConnected s = false
  /\ promiseState 2 s = None
  /\ invocations 2 (trace s) = []
  /\ timers s = ∅
  /\ promiseState (fst (disconnect pendingG1)) s = Some Fulfilled.
Proof. vm_compute. repeat split. Qed.

(** ** The staleness guard of the timer *)

Lemma filter_keeps_other p later cbs :
  later <> p -> In (ResolveOf later) cbs ->
  In (ResolveOf later) (filter (fun cb => isNotResolveOf p cb = true) cbs).
Proof.
  intros Hne Hin. apply list_elem_of_In, list_elem_of_filter. split.
  - simpl. destruct (Nat.eqb_spec later p); [contradiction|reflexivity].
  - apply list_elem_of_In. exact Hin.
Qed.

(** C10.  The guard of the timer compares texts.  When the timer armed for
    one issuance fires while a later issuance with the same text holds the
    slot, the guard passes: the slot is cleared, the promise of the earlier
    issuance is rejected as timed out after the earlier duration, and the
    later issuance is left with its resolver registered and no settlement.
    The timer of the later issuance then finds the slot empty and does
    nothing when it fires. *)
Theorem timer_guard_compares_text (t : TimerId) (command : string) (timeout : JSNumber)
    (p later : PromiseId) (s : State) :
  timers s !! t = Some (CommandTimeout command timeout p) ->
  currentCommand s = Some command ->
  later <> p ->
  In (ResolveOf later) (moveCompleteCallbacks s) ->
  let s' := handle (TimerFired t) s in
  currentCommand s' = None
  /\ invocations p (trace s')
     = (invocations p (trace s) ++ [Rejected (TimedOut command timeout)])%list
  /\ invocations later (trace s') = invocations later (trace s)
  /\ In (ResolveOf later) (moveCompleteCallbacks s')
  /\ timers s' = delete t (timers s)
  /\ (forall t' timeout',
        t' <> t -> timers s !! t' = Some (CommandTimeout command timeout' later) ->
        handle (TimerFired t') s' = set_timers (delete t' (timers s')) (nextTimer s') s').
Proof.
  intros Ht Hcmd Hne Hin s'. subst s'.
  rewrite (handle_TimerFired_current t command timeout p s Ht Hcmd).
  cbn [currentCommand trace moveCompleteCallbacks timers set_trace set_currentCommand
       set_moveCompleteCallbacks set_timers].
  repeat apply conj; try reflexivity.
  - rewrite !invocations_app, invocations_renderer. simpl. rewrite Nat.eqb_refl. reflexivity.
  - rewrite !invocations_app, invocations_renderer. simpl.
    destruct (Nat.eqb_spec p later) as [E|_]; [congruence|]. apply app_nil_r.
  - apply filter_keeps_other; assumption.
  - intros t' timeout' Hne' Ht'.
    apply (handle_TimerFired_stale t' command timeout' later).
    + cbn [timers set_trace set_currentCommand set_moveCompleteCallbacks set_timers].
      rewrite lookup_delete_ne by congruence. exact Ht'.
    + discriminate.
Qed.

Lemma timer_guard_compares_text_witness :
  timeoutId twiceG90 = Some 2
  /\ promiseState 2 (handle (TimerFired 1) twiceG90)
     = Some (Rejected (TimedOut "G90" (Decimal false 1 3)))
  /\ promiseState 3 (handle (TimerFired 1) twiceG90) = None
  /\ currentCommand (handle (TimerFired 1) twiceG90) = None
  /\ promiseState 3 (handle (TimerFired 2) (handle (TimerFired 1) twiceG90)) = None.
Proof.
  assert (Hin : In (ResolveOf 3) (moveCompleteCallbacks twiceG90)) by (vm_compute; auto).
  assert (Hne : 3 <> 2) by discriminate.
  assert (Ht : timers twiceG90 !! 1 = Some (CommandTimeout "G90" (Decimal false 1 3) 2))
    by (vm_compute; reflexivity).
  assert (Hcur : currentCommand twiceG90 = Some "G90") by (vm_compute; reflexivity).
  pose proof (timer_guard_compares_text 1 "G90" (Decimal false 1 3) 2 3 twiceG90
                Ht Hcur Hne Hin) as (Hcmd & Hp & Hlater & _ & _ & Hstale).
  assert (Ht2 : timers twiceG90 !! 2 = Some (CommandTimeout "G90" (Decimal false 5 3) 3))
    by (vm_compute; reflexivity).
  assert (Hne2 : 2 <> 1) by discriminate.
  split; [vm_compute; reflexivity|].
  split; [unfold promiseState; rewrite Hp; vm_compute; reflexivity|].
  split; [unfold promiseState; rewrite Hlater; vm_compute; reflexivity|].
  split; [exact Hcmd|].
  rewrite (Hstale 2 _ Hne2 Ht2). unfold promiseState. cbn [trace set_timers].
  rewrite Hlater. vm_compute. reflexivity.
Defined.

(** ** Reachable states are tidy *)

Lemma resolver_filtered p q cbs :
  In (ResolveOf p) (filter (fun cb => isNotResolveOf q cb = true) cbs) -> In (ResolveOf p) cbs.
Proof.
  intros H. apply list_elem_of_In, list_elem_of_filter in H as [_ H].
  apply list_elem_of_In. exact H.
Qed.

Lemma clearPendingTimeout_runtime s :
  timers (clearPendingTimeout s)
  = match timeoutId s with Some t => delete t (timers s) | None => timers s end
  /\ writes (clearPendingTimeout s) = writes s
  /\ closes (clearPendingTimeout s) = closes s
  /\ tasks (clearPendingTimeout s) = tasks s
  /\ nextPromise (clearPendingTimeout s) = nextPromise s.
Proof.
  unfold clearPendingTimeout, clearTimeout. destruct (timeoutId s); repeat apply conj; reflexivity.
Qed.

Lemma below_weaken n m s : n <= m -> below n s -> below m s.
Proof.
  intros Hle (Htr & Hcb & Ht & Hw & Hc & Hk). repeat apply conj.
  - intros q o Hin. specialize (Htr q o Hin). lia.
  - intros q Hin. specialize (Hcb q Hin). lia.
  - eapply map_Forall_impl; [exact Ht|]. simpl. intros. lia.
  - eapply map_Forall_impl; [exact Hw|]. simpl. intros. lia.
  - eapply map_Forall_impl; [exact Hc|]. simpl. intros. lia.
  - eapply Forall_impl; [exact Hk|]. simpl. intros. lia.
Qed.

Lemma grows_refl s : tidy s -> grows s s.
Proof. intros H. split; [exact H|lia]. Qed.

Lemma grows_trans s1 s2 s3 : grows s1 s2 -> grows s2 s3 -> grows s1 s3.
Proof. intros [_ H12] [H3 H23]. split; [exact H3|lia]. Qed.

Ltac below_fields :=
  repeat apply conj; simpl; try assumption; try lia;
  try (apply map_Forall_delete; assumption);
  try (apply map_Forall_insert_2; [simpl; try assumption; try lia|assumption]);
  try solve [constructor].

Lemma grows_observe o s :
  (forall q r, o = Settle q r -> q < nextPromise s) -> tidy s -> grows s (observe o s).
Proof.
  intros Ho (Htr & Hcb & Ht & Hw & Hc & Hk). split; [|simpl; lia].
  unfold tidy. below_fields.
  intros q r Hin. apply in_app_or in Hin as [Hin|[Hin|[]]]; [eauto|]. apply (Ho q r Hin).
Qed.

Lemma grows_settle q o s : q < nextPromise s -> tidy s -> grows s (settle q o s).
Proof.
  intros Hq Hs. apply grows_observe; [|exact Hs]. intros q' r [= <- <-]. exact Hq.
Qed.

Lemma grows_quiet o s :
  (forall q r, o <> Settle q r) -> tidy s -> grows s (observe o s).
Proof.
  intros Ho Hs. apply grows_observe; [|exact Hs]. intros q r E. destruct (Ho q r E).
Qed.

Lemma grows_sendErrorToRenderer text s : tidy s -> grows s (sendErrorToRenderer text s).
Proof.
  intros Hs. unfold sendErrorToRenderer. destruct (mainWindow s).
  - apply grows_quiet; [discriminate|exact Hs].
  - apply grows_refl. exact Hs.
Qed.

Lemma grows_clearPendingTimeout s : tidy s -> grows s (clearPendingTimeout s).
Proof.
  intros (Htr & Hcb & Ht & Hw & Hc & Hk). unfold clearPendingTimeout, clearTimeout.
  destruct (timeoutId s); (split; [unfold tidy; below_fields|simpl; lia]).
Qed.

(** A state that differs from a tidy one only in fields that hold no
    promise. *)
Lemma grows_same s s' :
  tidy s -> trace s' = trace s -> moveCompleteCallbacks s' = moveCompleteCallbacks s ->
  timers s' = timers s -> writes s' = writes s -> closes s' = closes s ->
  tasks s' = tasks s -> nextPromise s' = nextPromise s -> grows s s'.
Proof.
  intros Hs Htr Hcb Ht Hw Hc Hk Hn. split; [|lia].
  unfold tidy, below. rewrite Htr, Hcb, Ht, Hw, Hc, Hk, Hn. exact Hs.
Qed.

Lemma then_grows_same s0 s s' :
  grows s0 s -> trace s' = trace s -> moveCompleteCallbacks s' = moveCompleteCallbacks s ->
  timers s' = timers s -> writes s' = writes s -> closes s' = closes s ->
  tasks s' = tasks s -> nextPromise s' = nextPromise s -> grows s0 s'.
Proof.
  intros H Htr Hcb Ht Hw Hc Hk Hn. apply grows_trans with (s2 := s); [exact H|].
  apply grows_same; try assumption. exact (proj1 H).
Qed.

Lemma grows_newPromise s :
  tidy s -> grows s (snd (newPromise s)) /\ fst (newPromise s) < nextPromise (snd (newPromise s)).
Proof.
  intros Hs. simpl. split; [|lia]. split; [|simpl; lia].
  apply (below_weaken (nextPromise s)); [simpl; lia|exact Hs].
Qed.

Lemma then_grows_settle q o s0 s :
  grows s0 s -> q < nextPromise s -> grows s0 (settle q o s).
Proof.
  intros H Hq. apply grows_trans with (s2 := s); [exact H|].
  apply grows_settle; [exact Hq|exact (proj1 H)].
Qed.

Lemma then_grows_renderer text s0 s : grows s0 s -> grows s0 (sendErrorToRenderer text s).
Proof.
  intros H. apply grows_trans with (s2 := s); [exact H|].
  apply grows_sendErrorToRenderer. exact (proj1 H).
Qed.

Lemma then_grows_quiet o s0 s :
  grows s0 s -> (forall q r, o <> Settle q r) -> grows s0 (observe o s).
Proof.
  intros H Ho. apply grows_trans with (s2 := s); [exact H|].
  apply grows_quiet; [exact Ho|exact (proj1 H)].
Qed.

Lemma nextPromise_sendErrorToRenderer text s :
  nextPromise (sendErrorToRenderer text s) = nextPromise s.
Proof. unfold sendErrorToRenderer. destruct (mainWindow s); reflexivity. Qed.

Ltac bound :=
  rewrite ?nextPromise_sendErrorToRenderer; simpl; first [assumption | lia].

Lemma grows_sendCommand command timeout s :
  tidy s ->
  grows s (snd (sendCommand command timeout s))
  /\ fst (sendCommand command timeout s) < nextPromise (snd (sendCommand command timeout s)).
Proof.
  intros Hs.
  assert (H1 : grows s (set_nextPromise (S (nextPromise s)) (observe (Call command) s))).
  { apply grows_trans with (s2 := observe (Call command) s).
    - apply grows_quiet; [discriminate|exact Hs].
    - apply (grows_newPromise (observe (Call command) s)).
      apply grows_quiet; [discriminate|exact Hs]. }
  unfold sendCommand, newPromise. cbn [fst snd].
  destruct (negb _ || negb _); cbn [fst snd].
  - split.
    + apply then_grows_settle; [|bound]. apply then_grows_renderer. exact H1.
    + unfold settle, observe. cbn [nextPromise set_trace]. bound.
  - split; [|simpl; lia].
    apply grows_trans
      with (s2 := set_currentCommand (Some command)
                    (set_nextPromise (S (nextPromise s)) (observe (Call command) s))).
    + apply (then_grows_same _ _ _ H1); reflexivity.
    + destruct H1 as [(Htr & Hcb & Ht & Hw & Hc & Hk) _].
      unfold portWrite. split; [unfold tidy; below_fields|simpl; lia].
      intros q r Hin. apply in_app_or in Hin as [Hin|[Hin|[]]]; [eauto|discriminate Hin].
Qed.

Lemma grows_park q k s :
  continuationTarget k < nextPromise s -> tidy s -> grows s (park q k s).
Proof.
  intros Hk (Htr & Hcb & Ht & Hw & Hc & Hts). split; [|simpl; lia].
  unfold tidy. below_fields. apply Forall_app. split; [exact Hts|].
  constructor; [exact Hk|constructor].
Qed.

Lemma grows_await q k run s :
  continuationTarget k < nextPromise s ->
  (forall o, grows s (run o s)) ->
  tidy s -> grows s (await q k run s).
Proof.
  intros Hk Hrun Hs. unfold await. destruct (promiseState q s) as [o|].
  - apply Hrun.
  - apply grows_park; assumption.
Qed.

Lemma grows_deltaRestored error result o s :
  result < nextPromise s -> tidy s -> grows s (deltaRestored error result o s).
Proof.
  intros Hr Hs. unfold deltaRestored. apply then_grows_settle.
  - destruct o; [apply grows_refl; exact Hs|]. apply grows_quiet; [discriminate|exact Hs].
  - destruct o; simpl; exact Hr.
Qed.

Lemma grows_deltaCatch error result s :
  result < nextPromise s -> tidy s -> grows s (deltaCatch error result s).
Proof.
  intros Hr Hs. unfold deltaCatch.
  destruct (grows_sendCommand "G90" None s Hs) as [Hsend _].
  destruct (sendCommand "G90" None s) as [q s1]. cbn [fst snd] in *.
  apply grows_trans with (s2 := s1); [exact Hsend|].
  destruct Hsend as [Hs1 Hle].
  apply grows_await; [simpl; lia| |exact Hs1].
  intros o. apply grows_deltaRestored; [lia|exact Hs1].
Qed.

Lemma grows_deltaMoved result o s :
  result < nextPromise s -> tidy s -> grows s (deltaMoved result o s).
Proof.
  intros Hr Hs. unfold deltaMoved. destruct o as [|error]; [|apply grows_deltaCatch; assumption].
  destruct (grows_sendCommand "G90" None s Hs) as [Hsend _].
  destruct (sendCommand "G90" None s) as [q s1]. cbn [fst snd] in *.
  apply grows_trans with (s2 := s1); [exact Hsend|].
  destruct Hsend as [Hs1 Hle].
  apply grows_await; [simpl; lia| |exact Hs1].
  intros o. apply grows_settle; [lia|exact Hs1].
Qed.

Lemma grows_deltaEntered distance rapid result o s :
  result < nextPromise s -> tidy s -> grows s (deltaEntered distance rapid result o s).
Proof.
  intros Hr Hs. unfold deltaEntered.
  destruct o as [|error]; [|apply grows_deltaCatch; assumption].
  destruct (grows_sendCommand (moveText rapid distance (currentSpeed s)) None s Hs)
    as [Hsend _].
  destruct (sendCommand (moveText rapid distance (currentSpeed s)) None s) as [q s1].
  cbn [fst snd] in *.
  apply grows_trans with (s2 := s1); [exact Hsend|].
  destruct Hsend as [Hs1 Hle].
  apply grows_await; [simpl; lia| |exact Hs1].
  intros o. apply grows_deltaMoved; [lia|exact Hs1].
Qed.

Lemma grows_handshakeSent connecting o s :
  connecting < nextPromise s -> tidy s -> grows s (handshakeSent connecting o s).
Proof.
  intros Hc Hs. unfold handshakeSent. destruct o.
  - apply grows_settle; assumption.
  - apply grows_refl. exact Hs.
Qed.

Lemma grows_resume k o s :
  continuationTarget k < nextPromise s -> tidy s -> grows s (resume k o s).
Proof.
  intros Hk Hs. destruct k; simpl in *.
  - apply grows_handshakeSent; assumption.
  - apply grows_deltaEntered; assumption.
  - apply grows_deltaMoved; assumption.
  - apply grows_settle; assumption.
  - apply grows_deltaRestored; assumption.
Qed.

Lemma grows_resumeAll ts s :
  Forall (fun t => continuationTarget (continuation t) < nextPromise s) ts ->
  tidy s -> grows s (resumeAll ts s).
Proof.
  revert s. induction ts as [|t ts IH]; intros s Hts Hs; simpl.
  - apply grows_refl. exact Hs.
  - inversion Hts as [|? ? Ht Hrest]; subst.
    assert (Hnext : forall s', grows s s' -> grows s (resumeAll ts s')).
    { intros s' H1. apply grows_trans with (s2 := s'); [exact H1|].
      apply IH; [|exact (proj1 H1)].
      eapply Forall_impl; [exact Hrest|]. simpl. intros. destruct H1 as [_ Hle]. lia. }
    destruct (promiseState (awaiting t) s) as [o|]; apply Hnext.
    + apply grows_resume; assumption.
    + apply grows_park; assumption.
Qed.

Lemma grows_runMicrotasks s : tidy s -> grows s (runMicrotasks s).
Proof.
  intros Hs. pose proof Hs as (Htr & Hcb & Ht & Hw & Hc & Hk). unfold runMicrotasks.
  assert (H0 : grows s (set_tasks [] s)).
  { split; [|simpl; lia]. unfold tidy. below_fields. }
  apply grows_trans with (s2 := set_tasks [] s); [exact H0|].
  apply grows_resumeAll; [exact Hk|exact (proj1 H0)].
Qed.

Lemma grows_serve r s : tidy s -> grows s (snd (serve r s)).
Proof.
  intros Hs. pose proof Hs as (Htr & Hcb & Ht & Hw & Hc & Hk).
  destruct (grows_newPromise s Hs) as [Hnew _]. simpl in Hnew.
  destruct r as [portPath thrown| |ax ay az| |speed|position rapid|distance rapid
                |command timeout]; simpl.
  - (* connect *)
    unfold connect, newPromise. destruct thrown as [failure|]; cbn [snd].
    + apply then_grows_settle; [|bound]. apply then_grows_renderer.
      apply then_grows_same
        with (s := observe (LogError "Error connecting to serial port:" (PortFailure failure))
                     (set_nextPromise (S (nextPromise s)) s)); try reflexivity.
      apply then_grows_quiet; [exact Hnew|discriminate].
    + apply then_grows_quiet; [|discriminate].
      apply (then_grows_same _ _ _ Hnew); reflexivity.
  - (* disconnect *)
    unfold disconnect, newPromise. cbn [fst snd].
    destruct (negb _); cbn [snd].
    + apply then_grows_settle; [exact Hnew|simpl; lia].
    + pose proof (grows_trans _ _ _ Hnew (grows_clearPendingTimeout _ (proj1 Hnew))) as Hclear.
      assert (Hn : nextPromise s
                   < nextPromise (clearPendingTimeout (set_nextPromise (S (nextPromise s)) s))).
      { destruct (clearPendingTimeout_runtime (set_nextPromise (S (nextPromise s)) s))
          as (_ & _ & _ & _ & ->). simpl. lia. }
      generalize dependent (clearPendingTimeout (set_nextPromise (S (nextPromise s)) s)).
      intros cleared Hclear Hn.
      destruct (port cleared); cbn [snd].
      * apply grows_trans with (s2 := cleared); [exact Hclear|].
        destruct Hclear as [(Htr' & Hcb' & Ht' & Hw' & Hc' & Hk') Hle].
        unfold portClose. split; [unfold tidy; below_fields|simpl; lia].
        intros q r Hin. apply in_app_or in Hin as [Hin|[Hin|[]]]; [eauto|discriminate Hin].
      * apply then_grows_settle; [exact Hclear|exact Hn].
  - apply grows_sendCommand. exact Hs.
  - apply grows_sendCommand. exact Hs.
  - (* setSpeed *)
    unfold setSpeed, newPromise. cbn [snd]. apply then_grows_settle; [|simpl; lia].
    apply (then_grows_same _ _ _ Hnew); reflexivity.
  - apply grows_sendCommand. exact Hs.
  - (* deltaMove *)
    unfold deltaMove, newPromise. cbn [fst snd].
    destruct (grows_sendCommand "G91" None _ (proj1 Hnew)) as [Hsend _].
    destruct (sendCommand "G91" None (set_nextPromise (S (nextPromise s)) s)) as [q s1].
    cbn [fst snd] in *.
    apply grows_trans with (s2 := s1); [exact (grows_trans _ _ _ Hnew Hsend)|].
    destruct Hsend as [Hs1 Hle]. simpl in Hle.
    apply grows_await; [simpl; lia| |exact Hs1].
    intros o. apply grows_deltaEntered; [lia|exact Hs1].
  - apply grows_sendCommand. exact Hs.
Qed.

Lemma grows_handle ev s : known s ev -> tidy s -> grows s (handle ev s).
Proof.
  intros Hev Hs. pose proof Hs as (Htr & Hcb & Ht & Hw & Hc & Hk).
  destruct ev as [r|pt|pt detail|line|w err|t|c err]; simpl in Hev.
  - apply grows_serve. exact Hs.
  - unfold handle, onOpen, setTimeout. split; [unfold tidy; below_fields|simpl; lia].
  - unfold handle, onPortError. apply then_grows_settle; [|bound].
    apply then_grows_renderer.
    apply then_grows_same
      with (s := observe (LogError "Serial port error:" (PortFailure detail)) s);
      try reflexivity.
    apply grows_quiet; [discriminate|exact Hs].
  - unfold handle, processResponse.
    assert (Hok : grows s (if String.eqb (Text.trim line) "ok" then onOk s else s)).
    { destruct (String.eqb _ _); [|apply grows_refl; exact Hs].
      change (onOk s) with (processResponse "ok" s). rewrite processResponse_ok.
      destruct (grows_clearPendingTimeout s Hs) as [(Htr' & Hcb' & Ht' & Hw' & Hc' & Hk') Hle].
      destruct (clearPendingTimeout_fields s) as (_ & _ & Etr & _ & Ecb & _).
      split; [unfold tidy; below_fields|simpl; lia].
      intros q r Hin. apply in_app_or in Hin as [Hin|Hin].
      - rewrite <- Etr in Hin. eauto.
      - apply in_map_iff in Hin as (cb & Ecb' & Hin). destruct cb; [|discriminate Ecb'].
        injection Ecb' as -> _. apply Hcb'. rewrite Ecb. exact Hin. }
    destruct (Text.startsWith "Error:" (Text.trim line)); [|exact Hok].
    apply grows_trans with (s2 := if String.eqb (Text.trim line) "ok" then onOk s else s);
      [exact Hok|].
    destruct Hok as [Hs' _]. generalize dependent (if String.eqb (Text.trim line) "ok"
                                                   then onOk s else s).
    intros s' Hs'. rewrite onErrorLine_state. cbv zeta.
    destruct (grows_clearPendingTimeout s' Hs') as [(Htr' & Hcb' & Ht' & Hw' & Hc' & Hk') Hle].
    destruct (clearPendingTimeout_fields s') as (_ & _ & Etr & _).
    split; [unfold tidy; below_fields|simpl; lia].
    intros q r Hin.
    apply in_app_or in Hin as [Hin|[Hin|Hin]];
      [rewrite <- Etr in Hin; eauto|discriminate Hin|].
    apply in_app_or in Hin as [Hin|Hin].
    + destruct (mainWindow s'); [destruct Hin as [Hin|[]]; discriminate Hin|destruct Hin].
    + apply in_map_iff in Hin as (n & Hn & _). discriminate Hn.
  - unfold handle. destruct (writes s !! w) as [closure|] eqn:Hlook; [|apply grows_refl; exact Hs].
    pose proof (map_Forall_lookup_1 _ _ _ _ Hw Hlook) as Hclosure. simpl in Hclosure.
    assert (H0 : grows s (set_writes (delete w (writes s)) (nextWrite s) s)).
    { split; [unfold tidy; below_fields|simpl; lia]. }
    unfold onWritten. destruct err as [failure|].
    + apply then_grows_settle; [|bound]. apply then_grows_renderer.
      apply then_grows_same
        with (s := observe (LogError "Error sending command:" (PortFailure failure))
                     (set_writes (delete w (writes s)) (nextWrite s) s)); try reflexivity.
      apply then_grows_quiet; [exact H0|discriminate].
    + destruct (expectsNoOk (wCommand closure)).
      * apply then_grows_settle; [exact H0|simpl; exact Hclosure].
      * unfold setTimeout. split; [unfold tidy; below_fields|simpl; lia].
        intros q Hin. apply in_app_or in Hin as [Hin|[Hin|[]]]; [eauto|].
        injection Hin as <-. exact Hclosure.
  - unfold handle. destruct (timers s !! t) as [body|] eqn:Hlook; [|apply grows_refl; exact Hs].
    pose proof (map_Forall_lookup_1 _ _ _ _ Ht Hlook) as Hbody. simpl in Hbody.
    assert (H0 : grows s (clearTimeout t s)).
    { unfold clearTimeout. split; [unfold tidy; below_fields|simpl; lia]. }
    destruct body as [connecting|command timeout q]; simpl in Hbody.
    + apply grows_trans with (s2 := clearTimeout t s); [exact H0|].
      unfold onHandshake.
      destruct (grows_sendCommand "M115" None _ (proj1 H0)) as [Hsend _].
      destruct (sendCommand "M115" None (clearTimeout t s)) as [m s1]. cbn [fst snd] in *.
      apply grows_trans with (s2 := s1); [exact Hsend|].
      destruct Hsend as [Hs1 Hle]. simpl in Hle.
      apply grows_await; [simpl; lia| |exact Hs1].
      intros o. apply grows_handshakeSent; [lia|exact Hs1].
    + unfold onTimeout. destruct (bool_decide _); [|exact H0].
      apply then_grows_settle; [|bound]. apply then_grows_renderer.
      destruct H0 as [(Htr' & Hcb' & Ht' & Hw' & Hc' & Hk') Hle].
      split; [unfold tidy; below_fields|simpl; lia].
      intros q' Hin. apply Hcb'. simpl. apply (resolver_filtered q' q). exact Hin.
  - unfold handle. destruct (closes s !! c) as [q|] eqn:Hlook; [|apply grows_refl; exact Hs].
    pose proof (map_Forall_lookup_1 _ _ _ _ Hc Hlook) as Hq. simpl in Hq.
    assert (H0 : grows s (set_closes (delete c (closes s)) (nextClose s) s)).
    { split; [unfold tidy; below_fields|simpl; lia]. }
    unfold onClosed. destruct err as [failure|].
    + apply then_grows_settle; [|bound]. apply then_grows_renderer.
      apply then_grows_quiet; [exact H0|discriminate].
    + apply then_grows_settle; [|simpl; exact Hq].
      apply (then_grows_same _ _ _ H0); reflexivity.
Qed.

Lemma grows_step ev s : known s ev -> tidy s -> grows s (step ev s).
Proof.
  intros Hev Hs. unfold step.
  pose proof (grows_handle ev s Hev Hs) as H1.
  apply grows_trans with (s2 := handle ev s); [exact H1|].
  apply grows_runMicrotasks. exact (proj1 H1).
Qed.

Lemma reachable_tidy s : reachable s -> tidy s.
Proof.
  induction 1 as [|ev s _ IH Hev].
  - unfold tidy, below. simpl. repeat apply conj; try apply map_Forall_empty;
      try constructor; intros; contradiction.
  - exact (proj1 (grows_step ev s Hev IH)).
Qed.

Lemma tidy_unused s : tidy s -> unused (nextPromise s) s.
Proof.
  intros (Htr & Hcb & Ht & Hw & Hc & Hk).
  repeat apply conj.
  - destruct (invocations (nextPromise s) (trace s)) as [|o rest] eqn:E; [reflexivity|].
    exfalso. assert (Hin : In (Settle (nextPromise s) o) (trace s)).
    { clear -E. induction (trace s) as [|ob tr IH]; simpl in E; [discriminate|].
      destruct ob; simpl in E; try (right; apply IH; exact E).
      destruct (Nat.eqb_spec p (nextPromise s)) as [->|_].
      - injection E as -> _. left. reflexivity.
      - right. apply IH. exact E. }
    specialize (Htr _ _ Hin). lia.
  - intros Hin. specialize (Hcb _ Hin). lia.
  - eapply map_Forall_impl; [exact Ht|]. simpl. intros. lia.
  - eapply map_Forall_impl; [exact Hw|]. simpl. intros. lia.
  - eapply map_Forall_impl; [exact Hc|]. simpl. intros. lia.
  - eapply Forall_impl; [exact Hk|]. simpl. intros. lia.
Qed.

(** In a reachable state the id of the next promise is unused. *)
Lemma reachable_unused s : reachable s -> unused (nextPromise s) s.
Proof. intros Hr. apply tidy_unused, reachable_tidy, Hr. Qed.

Lemma reachable_run evs s : reachable s -> knownAll evs s -> reachable (run evs s).
Proof.
  revert s. induction evs as [|ev evs IH]; intros s Hr Hk; [exact Hr|].
  destruct Hk as [Hev Hrest]. unfold run. simpl. apply IH; [|exact Hrest].
  apply reach_step; assumption.
Qed.

Lemma connectedIdle_reachable : reachable connectedIdle.
Proof.
  apply reachable_run; [apply reach_initial|]. vm_compute. repeat split; repeat constructor.
Qed.

(** ** The move sequencer *)

Lemma runMicrotasks_single h p k o :
  tasks h = [{| awaiting := p; continuation := k |}] ->
  promiseState p h = Some o ->
  runMicrotasks h = resume k o (set_tasks [] h).
Proof.
  intros Ht Hp. unfold runMicrotasks. rewrite Ht. simpl.
  change (promiseState p (set_tasks [] h)) with (promiseState p h). rewrite Hp. reflexivity.
Qed.



(** After the handler of an event has run in a reachable state, the id of
    the next promise has not been used. *)
Lemma handled_fresh s0 ev :
  reachable s0 -> known s0 ev ->
  invocations (nextPromise (handle ev s0)) (trace (handle ev s0)) = [].
Proof.
  intros Hr Hev.
  destruct (grows_handle ev s0 Hev (reachable_tidy s0 Hr)) as [Htidy _].
  exact (proj1 (tidy_unused _ Htidy)).
Qed.




(** ** The cached position of the page *)

(** C9 as the code has it.  The cached position is set by the handlers of
    the page as soon as they run, which the buttons allow once the page is
    marked connected: the handler of the absolute move makes it the object
    of the absolute-move form, so it reads as the target (for the target
    (10, 0, 0) it reads (10, 0, 0)); the handler of the relative move makes
    it the old position plus the distance; both home handlers make it the
    origin; connecting, disconnecting and setting the speed leave it as it
    is.  On a page that is not marked connected only Connect is enabled.
    No command and no completion is involved: a click leaves the client as
    it is. *)
Theorem position_follows_handlers (num : Type) (zero : num) (add : num -> num -> num)
    (s : Page.State num) :
  (Page.isConnected num s = true ->
   Page.positionValue num zero (Page.press num zero add Page.AbsoluteMoveButton s)
   = Page.deref num zero (Page.absoluteMove num s) s
   /\ Page.positionValue num zero (Page.press num zero add Page.DeltaMoveButton s)
      = (let p := Page.positionValue num zero s in
         let d := Page.deref num zero (Page.deltaMove num s) s in
         {| Page.vx := Page.plus num zero add (Page.vx num p) (Page.vx num d);
            Page.vy := Page.plus num zero add (Page.vy num p) (Page.vy num d);
            Page.vz := Page.plus num zero add (Page.vz num p) (Page.vz num d) |})
   /\ Page.positionValue num zero (Page.press num zero add Page.SetHomeButton s)
      = Page.origin num zero
   /\ Page.positionValue num zero (Page.press num zero add Page.GoHomeButton s)
      = Page.origin num zero
   /\ Page.positionValue num zero (Page.press num zero add Page.DisconnectButton s)
      = Page.positionValue num zero s
   /\ Page.positionValue num zero (Page.press num zero add Page.SetSpeedButton s)
      = Page.positionValue num zero s)
  /\ (Page.isConnected num s = false ->
      forall b, b <> Page.ConnectButton -> Page.press num zero add b s = s)
  /\ Page.positionValue num zero (Page.press num zero add Page.ConnectButton s)
     = Page.positionValue num zero s
  /\ (forall b a, printer (click b a) = printer a)
  /\ Page.positionValue Z 0%Z (page (click Page.AbsoluteMoveButton typedTarget))
     = {| Page.vx := Some 10%Z; Page.vy := Some 0%Z; Page.vz := Some 0%Z |}.
Proof.
  repeat apply conj.
  - intros Hc. unfold Page.press, Page.disabled. rewrite Hc. cbn [negb Page.onClick].
    unfold Page.positionValue, Page.deref.
    repeat apply conj; try reflexivity.
    + unfold Page.handleDeltaMove, Page.alloc. simpl. rewrite lookup_insert_eq. reflexivity.
    + unfold Page.handleSetHome, Page.alloc. simpl. rewrite lookup_insert_eq. reflexivity.
    + unfold Page.handleGoHome, Page.alloc. simpl. rewrite lookup_insert_eq. reflexivity.
  - intros Hc b Hb. unfold Page.press, Page.disabled. rewrite Hc.
    destruct b; try reflexivity. contradiction.
  - unfold Page.press, Page.disabled, Page.onClick, Page.handleConnect.
    destruct (Page.isConnected num s || String.eqb (Page.selectedPort num s) "");
      [reflexivity|].
    destruct (String.eqb (Page.selectedPort num s) ""); reflexivity.
  - reflexivity.
  - vm_compute. reflexivity.
Qed.

(** C9 as stated fails: on the connected page the handler of the absolute
    move makes the cached position the target (10, 0, 0) at once, beside a
    client that was sent no command and saw none complete. *)
Lemma position_set_without_completion :
  let a := click Page.AbsoluteMoveButton typedTarget in
  Page.isConnected Z (page typedTarget) = true
  /\ Page.positionValue Z 0%Z (page typedTarget) = Page.origin Z 0%Z
  /\ Page.positionValue Z 0%Z (page a)
     = {| Page.vx := Some 10%Z; Page.vy := Some 0%Z; Page.vz := Some 0%Z |}
  /\ attempts (trace (printer a)) = []
  /\ wire (trace (printer a)) = []
  /\ trace (printer a) = [].
Proof. vm_compute. repeat split. Qed.

(** X3.  After the handler of the absolute move has run on a connected
    page, the variable [position] and the absolute-move form are one
    object: typing into the form changes the value of [position] with no
    handler running, and the next relative move starts from what was
    typed. *)
Theorem position_shares_the_form (num : Type) (zero : num) (add : num -> num -> num)
    (s : Page.State num) (a : Page.Axis) (value : option num) :
  Page.isConnected num s = true ->
  let s1 := Page.press num zero add Page.AbsoluteMoveButton s in
  let s2 := Page.inputAbsoluteMove num zero a value s1 in
  Page.position num s2 = Page.absoluteMove num s2
  /\ Page.positionValue num zero s2
     = Page.setField num a value (Page.positionValue num zero s1)
  /\ Page.positionValue num zero (Page.press num zero add Page.DeltaMoveButton s2)
     = (let p := Page.setField num a value (Page.positionValue num zero s1) in
        let d := Page.deref num zero (Page.deltaMove num s2) s2 in
        {| Page.vx := Page.plus num zero add (Page.vx num p) (Page.vx num d);
           Page.vy := Page.plus num zero add (Page.vy num p) (Page.vy num d);
           Page.vz := Page.plus num zero add (Page.vz num p) (Page.vz num d) |}).
Proof.
  intros Hc s1 s2.
  assert (Hs1 : s1 = Page.handleAbsoluteMove num zero s).
  { unfold s1, Page.press, Page.disabled. rewrite Hc. reflexivity. }
  assert (Hvalue : Page.positionValue num zero s2
                   = Page.setField num a value (Page.positionValue num zero s1)).
  { unfold s2. rewrite Hs1.
    unfold Page.positionValue, Page.inputAbsoluteMove, Page.writeField,
      Page.handleAbsoluteMove, Page.deref. simpl. rewrite lookup_insert_eq. reflexivity. }
  repeat apply conj.
  - unfold s2. rewrite Hs1. reflexivity.
  - exact Hvalue.
  - assert (Hc2 : Page.isConnected num s2 = true) by (unfold s2; rewrite Hs1; exact Hc).
    unfold Page.press, Page.disabled. rewrite Hc2. cbn [negb Page.onClick].
    rewrite <- Hvalue.
    unfold Page.positionValue at 1. unfold Page.deref at 1.
    unfold Page.handleDeltaMove, Page.alloc. simpl. rewrite lookup_insert_eq. reflexivity.
Qed.

Lemma position_shares_the_form_witness :
  Page.positionValue Z 0%Z
    (Page.inputAbsoluteMove Z 0%Z Page.AxisY (Some 7%Z)
       (Page.press Z 0%Z Z.add Page.AbsoluteMoveButton (page typedTarget)))
  = Page.setField Z Page.AxisY (Some 7%Z)
      (Page.positionValue Z 0%Z
         (Page.press Z 0%Z Z.add Page.AbsoluteMoveButton (page typedTarget))).
Proof.
  assert (Hc : Page.isConnected Z (page typedTarget) = true) by (vm_compute; reflexivity).
  exact (proj1 (proj2 (position_shares_the_form Z 0%Z Z.add (page typedTarget) Page.AxisY
                         (Some 7%Z) Hc))).
Defined.

(** ** A forgotten promise stays forgotten *)

Ltac forgotten_fields :=
  repeat apply conj; simpl; try assumption; try lia;
  try (apply map_Forall_delete; assumption);
  try (apply map_Forall_insert_2; [simpl; assumption|assumption]);
  try solve [constructor].

Lemma untouched_refl p s : forgotten p s -> untouched p s s.
Proof. intros H. split; [exact H|]. split; [reflexivity|auto]. Qed.

Lemma untouched_trans p s1 s2 s3 : untouched p s1 s2 -> untouched p s2 s3 -> untouched p s1 s3.
Proof.
  intros (_ & H12 & C12) (H3 & H23 & C23). split; [exact H3|]. split; [congruence|auto].
Qed.

(** A state that differs from [s] in neither the trace nor the callbacks. *)
Lemma same_trace p s s' :
  forgotten p s' -> trace s' = trace s ->
  moveCompleteCallbacks s' = moveCompleteCallbacks s -> untouched p s s'.
Proof. intros Hf Htr Hcb. split; [exact Hf|]. rewrite Htr, Hcb. auto. Qed.

Lemma invocations_other p q o tr :
  q <> p -> invocations p (tr ++ [Settle q o])%list = invocations p tr.
Proof.
  intros Hne. rewrite invocations_app. simpl.
  destruct (Nat.eqb_spec q p); [contradiction|]. apply app_nil_r.
Qed.

Lemma untouched_observe p o s :
  settles p o = None -> forgotten p s -> untouched p s (observe o s).
Proof.
  intros Ho Hf. split; [exact Hf|]. split; [|auto]. simpl. rewrite invocations_app. simpl.
  rewrite Ho. apply app_nil_r.
Qed.

Lemma untouched_settle p q o s : forgotten p s -> q <> p -> untouched p s (settle q o s).
Proof.
  intros Hf Hne. apply untouched_observe; [|exact Hf]. simpl.
  destruct (Nat.eqb_spec q p); [contradiction|reflexivity].
Qed.

Lemma untouched_sendErrorToRenderer p text s :
  forgotten p s -> untouched p s (sendErrorToRenderer text s).
Proof.
  intros Hf. unfold sendErrorToRenderer. destruct (mainWindow s).
  - apply untouched_observe; [reflexivity|exact Hf].
  - apply untouched_refl. exact Hf.
Qed.

Lemma then_settle p q o s0 s : untouched p s0 s -> q <> p -> untouched p s0 (settle q o s).
Proof.
  intros H Hne. apply untouched_trans with (s2 := s); [exact H|].
  apply untouched_settle; [exact (proj1 H)|exact Hne].
Qed.

Lemma then_renderer p text s0 s :
  untouched p s0 s -> untouched p s0 (sendErrorToRenderer text s).
Proof.
  intros H. apply untouched_trans with (s2 := s); [exact H|].
  apply untouched_sendErrorToRenderer. exact (proj1 H).
Qed.

Lemma then_observe p o s0 s :
  untouched p s0 s -> settles p o = None -> untouched p s0 (observe o s).
Proof.
  intros H Ho. apply untouched_trans with (s2 := s); [exact H|].
  apply untouched_observe; [exact Ho|exact (proj1 H)].
Qed.

Lemma forgotten_clearPendingTimeout p s : forgotten p s -> forgotten p (clearPendingTimeout s).
Proof.
  intros (Hlt & Ht & Hw & Hc & Hk). unfold clearPendingTimeout, clearTimeout.
  destruct (timeoutId s); forgotten_fields.
Qed.

Lemma untouched_clearPendingTimeout p s :
  forgotten p s -> untouched p s (clearPendingTimeout s).
Proof.
  intros Hf. destruct (clearPendingTimeout_fields s) as (_ & _ & Htr & _ & Hcb & _).
  apply same_trace; [apply forgotten_clearPendingTimeout; exact Hf|exact Htr|exact Hcb].
Qed.

Lemma untouched_newPromise p s : forgotten p s -> untouched p s (snd (newPromise s)).
Proof.
  intros (Hlt & Ht & Hw & Hc & Hk). apply same_trace; [|reflexivity|reflexivity].
  forgotten_fields.
Qed.

Lemma untouched_sendCommand p command timeout s :
  forgotten p s -> untouched p s (snd (sendCommand command timeout s)).
Proof.
  intros Hf. pose proof Hf as (Hlt & Ht & Hw & Hc & Hk).
  unfold sendCommand, newPromise. cbn [fst snd].
  destruct (negb _ || negb _); cbn [snd].
  - apply then_settle; [|simpl; lia]. apply then_renderer.
    split; [forgotten_fields|]. split; [|auto]. simpl. rewrite invocations_app. apply app_nil_r.
  - unfold portWrite, observe. split; [forgotten_fields|].
    + apply map_Forall_insert_2; [simpl; lia|exact Hw].
    + split; [|auto]. simpl. rewrite !invocations_app. simpl. rewrite !app_nil_r. reflexivity.
Qed.

Lemma untouched_park p q k s :
  continuationTarget k <> p -> forgotten p s -> untouched p s (park q k s).
Proof.
  intros Hk (Hlt & Ht & Hw & Hc & Hts). apply same_trace; [|reflexivity|reflexivity].
  forgotten_fields. apply Forall_app. split; [exact Hts|]. constructor; [exact Hk|constructor].
Qed.

Lemma untouched_await p q k run s :
  continuationTarget k <> p ->
  (forall o st, forgotten p st -> untouched p st (run o st)) ->
  forgotten p s -> untouched p s (await q k run s).
Proof.
  intros Hk Hrun Hf. unfold await. destruct (promiseState q s) as [o|].
  - apply Hrun. exact Hf.
  - apply untouched_park; assumption.
Qed.

Lemma untouched_deltaRestored p error result o s :
  result <> p -> forgotten p s -> untouched p s (deltaRestored error result o s).
Proof.
  intros Hne Hf. unfold deltaRestored. apply then_settle; [|exact Hne].
  destruct o; [apply untouched_refl; exact Hf|].
  apply untouched_observe; [reflexivity|exact Hf].
Qed.

Lemma untouched_deltaCatch p error result s :
  result <> p -> forgotten p s -> untouched p s (deltaCatch error result s).
Proof.
  intros Hne Hf. unfold deltaCatch.
  pose proof (untouched_sendCommand p "G90" None s Hf) as Hsend.
  destruct (sendCommand "G90" None s) as [q s1]. simpl in Hsend.
  apply untouched_trans with (s2 := s1); [exact Hsend|].
  apply untouched_await; [exact Hne| |exact (proj1 Hsend)].
  intros o st Hst. apply untouched_deltaRestored; assumption.
Qed.

Lemma untouched_deltaMoved p result o s :
  result <> p -> forgotten p s -> untouched p s (deltaMoved result o s).
Proof.
  intros Hne Hf. unfold deltaMoved. destruct o as [|error]; [|apply untouched_deltaCatch; assumption].
  pose proof (untouched_sendCommand p "G90" None s Hf) as Hsend.
  destruct (sendCommand "G90" None s) as [q s1]. simpl in Hsend.
  apply untouched_trans with (s2 := s1); [exact Hsend|].
  apply untouched_await; [exact Hne| |exact (proj1 Hsend)].
  intros o st Hst. apply untouched_settle; assumption.
Qed.

Lemma untouched_deltaEntered p distance rapid result o s :
  result <> p -> forgotten p s -> untouched p s (deltaEntered distance rapid result o s).
Proof.
  intros Hne Hf. unfold deltaEntered.
  destruct o as [|error]; [|apply untouched_deltaCatch; assumption].
  pose proof (untouched_sendCommand p (moveText rapid distance (currentSpeed s)) None s Hf)
    as Hsend.
  destruct (sendCommand (moveText rapid distance (currentSpeed s)) None s) as [q s1].
  simpl in Hsend.
  apply untouched_trans with (s2 := s1); [exact Hsend|].
  apply untouched_await; [exact Hne| |exact (proj1 Hsend)].
  intros o st Hst. apply untouched_deltaMoved; assumption.
Qed.

Lemma untouched_handshakeSent p connecting o s :
  connecting <> p -> forgotten p s -> untouched p s (handshakeSent connecting o s).
Proof.
  intros Hne Hf. unfold handshakeSent. destruct o.
  - apply untouched_settle; assumption.
  - apply untouched_refl. exact Hf.
Qed.

Lemma untouched_resume p k o s :
  continuationTarget k <> p -> forgotten p s -> untouched p s (resume k o s).
Proof.
  intros Hk Hf. destruct k; simpl in *.
  - apply untouched_handshakeSent; assumption.
  - apply untouched_deltaEntered; assumption.
  - apply untouched_deltaMoved; assumption.
  - apply untouched_settle; assumption.
  - apply untouched_deltaRestored; assumption.
Qed.

Lemma untouched_resumeAll p ts s :
  Forall (fun t => continuationTarget (continuation t) <> p) ts ->
  forgotten p s -> untouched p s (resumeAll ts s).
Proof.
  revert s. induction ts as [|t ts IH]; intros s Hts Hf; simpl.
  - apply untouched_refl. exact Hf.
  - inversion Hts as [|? ? Ht Hrest]; subst.
    destruct (promiseState (awaiting t) s) as [o|].
    + pose proof (untouched_resume p (continuation t) o s Ht Hf) as H1.
      apply untouched_trans with (s2 := resume (continuation t) o s); [exact H1|].
      apply IH; [exact Hrest|exact (proj1 H1)].
    + pose proof (untouched_park p (awaiting t) (continuation t) s Ht Hf) as H1.
      apply untouched_trans with (s2 := park (awaiting t) (continuation t) s); [exact H1|].
      apply IH; [exact Hrest|exact (proj1 H1)].
Qed.

Lemma untouched_runMicrotasks p s : forgotten p s -> untouched p s (runMicrotasks s).
Proof.
  intros (Hlt & Ht & Hw & Hc & Hk). unfold runMicrotasks.
  apply (untouched_trans p s (set_tasks [] s)).
  - apply same_trace; [|reflexivity|reflexivity]. forgotten_fields.
  - apply untouched_resumeAll; [exact Hk|]. forgotten_fields.
Qed.

Lemma untouched_serve p r s : forgotten p s -> untouched p s (snd (serve r s)).
Proof.
  intros Hf. pose proof Hf as (Hlt & Ht & Hw & Hc & Hk).
  destruct r as [portPath thrown| |ax ay az| |speed|position rapid|distance rapid
                |command timeout]; simpl.
  - (* connect *)
    unfold connect, newPromise. destruct thrown as [failure|]; cbn [snd].
    + apply then_settle; [|simpl; lia]. apply then_renderer.
      apply untouched_trans with (s2 := set_nextPromise (S (nextPromise s)) s).
      * apply same_trace; [forgotten_fields|reflexivity|reflexivity].
      * split; [forgotten_fields|]. split; [|auto]. simpl. rewrite invocations_app.
        apply app_nil_r.
    + apply then_observe; [|reflexivity].
      apply same_trace; [forgotten_fields|reflexivity|reflexivity].
  - (* disconnect *)
    unfold disconnect, newPromise. cbn [fst snd].
    assert (Hnew : untouched p s (set_nextPromise (S (nextPromise s)) s))
      by (apply same_trace; [forgotten_fields|reflexivity|reflexivity]).
    destruct (negb _); cbn [snd].
    + apply then_settle; [exact Hnew|simpl; lia].
    + pose proof (untouched_trans _ _ _ _ Hnew
                    (untouched_clearPendingTimeout p _ (proj1 Hnew))) as Hclear.
      destruct (port (clearPendingTimeout _)); cbn [snd].
      * apply untouched_trans with (s2 := clearPendingTimeout (set_nextPromise (S (nextPromise s)) s));
          [exact Hclear|].
        destruct Hclear as ((Hlt' & Ht' & Hw' & Hc' & Hk') & _).
        unfold portClose. split; [forgotten_fields|].
        -- apply map_Forall_insert_2; [simpl in *; lia|exact Hc'].
        -- split; [|auto]. simpl. rewrite invocations_app. apply app_nil_r.
      * apply then_settle; [exact Hclear|simpl; lia].
  - apply untouched_sendCommand. exact Hf.
  - apply untouched_sendCommand. exact Hf.
  - (* setSpeed *)
    unfold setSpeed, newPromise. cbn [snd]. apply then_settle; [|simpl; lia].
    apply same_trace; [forgotten_fields|reflexivity|reflexivity].
  - apply untouched_sendCommand. exact Hf.
  - (* deltaMove *)
    unfold deltaMove.
    pose proof (untouched_newPromise p s Hf) as Hnew.
    unfold newPromise in *. cbn [fst snd] in *.
    pose proof (untouched_sendCommand p "G91" None _ (proj1 Hnew)) as Hsend.
    destruct (sendCommand "G91" None (set_nextPromise (S (nextPromise s)) s)) as [q s1].
    cbn [fst snd] in *.
    apply untouched_trans with (s2 := s1); [exact (untouched_trans _ _ _ _ Hnew Hsend)|].
    apply untouched_await; [simpl; lia| |exact (proj1 Hsend)].
    intros o st Hst. apply untouched_deltaEntered; [lia|exact Hst].
  - apply untouched_sendCommand. exact Hf.
Qed.

Lemma untouched_handle p ev s : quiet p ev -> forgotten p s -> untouched p s (handle ev s).
Proof.
  intros Hq Hf. pose proof Hf as (Hlt & Ht & Hw & Hc & Hk).
  destruct ev as [r|pt|pt detail|line|w err|t|c err]; simpl in Hq.
  - (* a request of the renderer *)
    unfold handle. apply untouched_serve. exact Hf.
  - (* the port opened *)
    apply same_trace; [|reflexivity|reflexivity].
    unfold handle, onOpen, setTimeout. forgotten_fields.
  - (* the port failed *)
    unfold handle, onPortError.
    apply then_settle; [|exact Hq]. apply then_renderer.
    split; [forgotten_fields|]. split; [|auto]. simpl. rewrite invocations_app.
    apply app_nil_r.
  - (* a line that is not the completion line *)
    unfold handle, processResponse.
    assert (String.eqb (Text.trim line) "ok" = false) as -> by (apply String.eqb_neq; exact Hq).
    destruct (Text.startsWith "Error:" (Text.trim line)); [|apply untouched_refl; exact Hf].
    rewrite onErrorLine_state. cbv zeta.
    pose proof (untouched_clearPendingTimeout p s Hf)
      as ((Hlt' & Ht' & Hw' & Hc' & Hk') & Htr & Hcb).
    split; [forgotten_fields|]. split; [|exact Hcb]. simpl. rewrite invocations_app. simpl.
    rewrite invocations_app, invocations_renderer, invocations_notified. simpl.
    apply app_nil_r.
  - (* a write called back *)
    unfold handle. destruct (writes s !! w) as [closure|] eqn:Hlook; [|apply untouched_refl; exact Hf].
    pose proof (map_Forall_lookup_1 _ _ _ _ Hw Hlook) as Hclosure. simpl in Hclosure.
    assert (H0 : untouched p s (set_writes (delete w (writes s)) (nextWrite s) s))
      by (apply same_trace; [forgotten_fields|reflexivity|reflexivity]).
    unfold onWritten. destruct err as [failure|].
    + apply then_settle; [|exact Hclosure]. apply then_renderer.
      split; [forgotten_fields|]. split; [|auto]. simpl. rewrite invocations_app.
      apply app_nil_r.
    + destruct (expectsNoOk (wCommand closure)).
      * apply then_settle; assumption.
      * unfold setTimeout. split; [forgotten_fields|]. split; [reflexivity|]. simpl.
        intros Hin. apply in_app_or in Hin as [Hin|[Hin|[]]]; [exact Hin|].
        injection Hin as Hin. contradiction.
  - (* a timer fired *)
    unfold handle. destruct (timers s !! t) as [body|] eqn:Hlook; [|apply untouched_refl; exact Hf].
    pose proof (map_Forall_lookup_1 _ _ _ _ Ht Hlook) as Hbody. simpl in Hbody.
    assert (Hf' : forgotten p (clearTimeout t s)) by (unfold clearTimeout; forgotten_fields).
    assert (Hsame : untouched p s (clearTimeout t s))
      by (apply same_trace; [exact Hf'|reflexivity|reflexivity]).
    destruct body as [connecting|command timeout q]; simpl in Hbody.
    + apply untouched_trans with (s2 := clearTimeout t s); [exact Hsame|].
      unfold onHandshake.
      pose proof (untouched_sendCommand p "M115" None (clearTimeout t s) Hf') as Hsend.
      destruct (sendCommand "M115" None (clearTimeout t s)) as [m s1]. simpl in Hsend.
      apply untouched_trans with (s2 := s1); [exact Hsend|].
      apply untouched_await; [exact Hbody| |exact (proj1 Hsend)].
      intros o st Hst. apply untouched_handshakeSent; assumption.
    + unfold onTimeout. destruct (bool_decide _); [|exact Hsame].
      apply then_settle; [|exact Hbody]. apply then_renderer.
      pose proof Hf' as (Hlt' & Ht' & Hw' & Hc' & Hk').
      split; [forgotten_fields|]. split; [reflexivity|]. simpl. apply resolver_filtered.
  - (* a close called back *)
    unfold handle. destruct (closes s !! c) as [q|] eqn:Hlook; [|apply untouched_refl; exact Hf].
    pose proof (map_Forall_lookup_1 _ _ _ _ Hc Hlook) as Hne. simpl in Hne.
    unfold onClosed. destruct err as [failure|].
    + apply then_settle; [|exact Hne]. apply then_renderer.
      split; [forgotten_fields|]. split; [|auto]. simpl. rewrite invocations_app.
      apply app_nil_r.
    + apply then_settle; [|exact Hne].
      apply same_trace; [forgotten_fields|reflexivity|reflexivity].
Qed.

Lemma untouched_step p ev s : quiet p ev -> forgotten p s -> untouched p s (step ev s).
Proof.
  intros Hq Hf. unfold step.
  pose proof (untouched_handle p ev s Hq Hf) as H1.
  apply untouched_trans with (s2 := handle ev s); [exact H1|].
  apply untouched_runMicrotasks. exact (proj1 H1).
Qed.

(** Whatever happens next, as long as no completion line arrives, a
    forgotten promise sees none of its resolving functions invoked. *)
Lemma untouched_run p evs s :
  Forall (quiet p) evs -> forgotten p s -> untouched p s (run evs s).
Proof.
  revert s. induction evs as [|ev evs IH]; intros s Hq Hf.
  - apply untouched_refl. exact Hf.
  - inversion Hq as [|? ? Hev Hrest]; subst. unfold run. simpl.
    pose proof (untouched_step p ev s Hev Hf) as H1.
    apply untouched_trans with (s2 := step ev s); [exact H1|].
    apply IH; [exact Hrest|exact (proj1 H1)].
Qed.

Lemma resolver_not_invoked p cbs :
  ~ In (ResolveOf p) cbs -> invocations p (map invoked cbs) = [].
Proof.
  induction cbs as [|cb cbs IH]; simpl; [reflexivity|].
  intros Hnot. destruct cb as [q|n]; simpl.
  - destruct (Nat.eqb_spec q p) as [->|_]; [exfalso; apply Hnot; left; reflexivity|].
    apply IH. intros Hin. apply Hnot. right. exact Hin.
  - apply IH. intros Hin. apply Hnot. right. exact Hin.
Qed.

Lemma resolver_filtered_out p cbs :
  ~ In (ResolveOf p) (filter (fun cb => isNotResolveOf p cb = true) cbs).
Proof.
  intros H. apply list_elem_of_In, list_elem_of_filter in H as [H _].
  simpl in H. rewrite Nat.eqb_refl in H. discriminate H.
Qed.

Lemma quiet_or_ok p ev :
  foreign p ev -> quiet p ev \/ exists line, ev = LineReceived line /\ Text.trim line = "ok".
Proof.
  destruct ev as [r|pt|pt detail|line|w err|t|c err]; simpl; auto.
  intros _. destruct (String.eqb_spec (Text.trim line) "ok"); eauto.
Qed.

Lemma retired_step p ev s :
  foreign p ev -> retired p s ->
  retired p (step ev s) /\ invocations p (trace (step ev s)) = invocations p (trace s).
Proof.
  intros Hev [Hf Hnot].
  destruct (quiet_or_ok p ev Hev) as [Hq | (line & -> & Hok)].
  - destruct (untouched_step p ev s Hq Hf) as (Hf' & Hinv & Hcb).
    split; [split|]; auto.
  - assert (Hh : untouched p s (handle (LineReceived line) s)
                 /\ moveCompleteCallbacks (handle (LineReceived line) s) = []).
    { unfold handle. rewrite Hok, processResponse_ok.
      pose proof (untouched_clearPendingTimeout p s Hf)
        as ((Hlt' & Ht' & Hw' & Hc' & Hk') & Htr & Hcb).
      split; [|reflexivity].
      split; [forgotten_fields|]. split; [|simpl; tauto]. simpl.
      rewrite invocations_app, (resolver_not_invoked p _ Hnot). apply app_nil_r. }
    destruct Hh as [Hh Hempty].
    destruct (untouched_trans _ _ _ _ Hh (untouched_runMicrotasks p _ (proj1 Hh)))
      as (Hf' & Hinv & Hcb).
    split; [split|]; [exact Hf'| |exact Hinv].
    intros Hin. unfold step in Hin.
    destruct (untouched_runMicrotasks p _ (proj1 Hh)) as (_ & _ & Hcb').
    apply Hcb' in Hin. rewrite Hempty in Hin. exact Hin.
Qed.

(** Once a promise is retired, nothing that happens invokes its resolving
    functions again: not a late timer, not a further completion line, not
    a further request. *)
Lemma retired_run p evs s :
  Forall (foreign p) evs -> retired p s ->
  retired p (run evs s) /\ invocations p (trace (run evs s)) = invocations p (trace s).
Proof.
  revert s. induction evs as [|ev evs IH]; intros s Hq Hr.
  - split; [exact Hr|reflexivity].
  - inversion Hq as [|? ? Hev Hrest]; subst. unfold run. simpl.
    destruct (retired_step p ev s Hev Hr) as [Hr1 Hinv1].
    destruct (IH (step ev s) Hrest Hr1) as [Hr2 Hinv2].
    split; [exact Hr2|]. unfold run in Hinv2. congruence.
Qed.

Lemma step_idle ev s : tasks (handle ev s) = [] -> step ev s = handle ev s.
Proof.
  intros H. unfold step, runMicrotasks. rewrite H. simpl.
  destruct (handle ev s); simpl in *; subst; reflexivity.
Qed.

(** On a client with no function parked, the turn of the write callback
    leaves the state [issued_state] gives. *)
Lemma issued_step command timeout s :
  isConnected s = true -> is_Some (port s) -> expectsNoOk command = false -> tasks s = [] ->
  step (Written (nextWrite s) None) (snd (sendCommand command timeout s))
  = handle (Written (nextWrite s) None) (snd (sendCommand command timeout s)).
Proof.
  intros Hc Hp Hcmd Hts. apply step_idle.
  rewrite (issued_state command timeout s Hc Hp Hcmd). exact Hts.
Qed.

(** The promise of a command that was issued on a client where its id was
    unused is forgotten once its timer and its write callback are gone. *)
Lemma forgotten_of_fields p s s' x y :
  unused p s -> p < nextPromise s' ->
  timers s' = delete (nextTimer s) (<[nextTimer s := x]> (timers s)) ->
  writes s' = delete (nextWrite s) (<[nextWrite s := y]> (writes s)) ->
  closes s' = closes s -> tasks s' = tasks s ->
  forgotten p s'.
Proof.
  intros (_ & _ & Ht & Hw & Hc & Hk) Hlt Ht' Hw' Hc' Hk'.
  unfold forgotten. rewrite Ht', Hw', Hc', Hk', !delete_insert_eq.
  repeat apply conj; try assumption; apply map_Forall_delete; assumption.
Qed.

(** C1, where the code departs from it.  A command is issued on a
    client in a reachable state, connected and idle, then written, and
    answered by an error line.
    Neither [resolve] nor [reject] of its promise is invoked then, and its
    timer is gone; none is invoked later either, whatever the renderer, the
    port and the timers do, until a completion line arrives; and the next
    completion line, which answers some later command, fulfils it. *)
Theorem error_outcome_invokes_nothing (command line : string) (timeout : option JSNumber)
    (s : State) :
  isConnected s = true -> is_Some (port s) -> currentCommand s = None -> tasks s = [] ->
  reachable s ->
  expectsNoOk command = false ->
  Text.startsWith "Error:" (Text.trim line) = true ->
  let p := fst (sendCommand command timeout s) in
  let s1 := snd (sendCommand command timeout s) in
  let s2 := step (Written (nextWrite s) None) s1 in
  let s3 := step (LineReceived line) s2 in
  (currentCommand s2 = Some command
   /\ timers s2 !! nextTimer s
      = Some (CommandTimeout command (default defaultTimeout timeout) p))
  /\ invocations p (trace s3) = []
  /\ currentCommand s3 = None
  /\ timers s3 !! nextTimer s = None
  /\ In (ResolveOf p) (moveCompleteCallbacks s3)
  /\ (forall evs, Forall (quiet p) evs -> invocations p (trace (run evs s3)) = [])
  /\ invocations p (trace (step (LineReceived "ok") s3)) = [Fulfilled].
Proof.
  intros Hc Hp _ Hts Hr Hcmd Hline p s1 s2 s3.
  pose proof (reachable_unused s Hr) as Hun.
  assert (Hp' : p = nextPromise s).
  { subst p. rewrite (sendCommand_connected command timeout s Hc Hp). reflexivity. }
  rewrite Hp'. clear Hp' p.
  assert (Hs2 : s2 = handle (Written (nextWrite s) None) (snd (sendCommand command timeout s)))
    by (apply issued_step; assumption).
  rewrite (issued_state command timeout s Hc Hp Hcmd) in Hs2.
  assert (Hh3 : handle (LineReceived line) s2 = onErrorLine (Text.trim line) s2)
    by (apply processResponse_error; exact Hline).
  destruct (clearPendingTimeout_runtime s2) as (Htm & Hwr & Hcl & Htk & Hnp).
  assert (Hid2 : timeoutId s2 = Some (nextTimer s)) by (rewrite Hs2; reflexivity).
  rewrite Hid2 in Htm.
  assert (Hts3 : tasks (onErrorLine (Text.trim line) s2) = []).
  { rewrite onErrorLine_state. cbn [tasks set_trace set_currentCommand].
    rewrite Htk, Hs2. exact Hts. }
  assert (Hs3 : s3 = onErrorLine (Text.trim line) s2).
  { unfold s3. rewrite step_idle; [exact Hh3|]. rewrite Hh3. exact Hts3. }
  destruct (error_line_rejects_nothing_aux (Text.trim line) s2 Hline)
    as (Hc3 & _ & Htimer & _ & Hinv & Hcbs).
  change (processResponse (Text.trim line) s2) with (handle (LineReceived line) s2) in *.
  rewrite Hh3, <- Hs3 in *.
  assert (Hf3 : forgotten (nextPromise s) s3).
  { apply (forgotten_of_fields _ s s3
             (CommandTimeout command (default defaultTimeout timeout) (nextPromise s))
             {| wCommand := command; wTimeout := default defaultTimeout timeout;
                wPromise := nextPromise s |}).
    - exact Hun.
    - rewrite Hs3, onErrorLine_state. cbn [nextPromise set_trace set_currentCommand].
      rewrite Hnp, Hs2. simpl. lia.
    - rewrite Hs3, onErrorLine_state. cbn [timers set_trace set_currentCommand].
      rewrite Htm, Hs2. reflexivity.
    - rewrite Hs3, onErrorLine_state. cbn [writes set_trace set_currentCommand].
      rewrite Hwr, Hs2. reflexivity.
    - rewrite Hs3, onErrorLine_state. cbn [closes set_trace set_currentCommand].
      rewrite Hcl, Hs2. reflexivity.
    - rewrite Hts3, Hts. reflexivity. }
  assert (Hinv3 : invocations (nextPromise s) (trace s3) = []).
  { rewrite Hinv, Hs2. cbn [trace set_timeoutId set_timers set_moveCompleteCallbacks
                             set_writes set_trace].
    rewrite invocations_app, (proj1 Hun). reflexivity. }
  assert (Hcb3 : moveCompleteCallbacks s3
                 = (moveCompleteCallbacks s ++ [ResolveOf (nextPromise s)])%list)
    by (rewrite Hcbs, Hs2; reflexivity).
  repeat apply conj.
  - rewrite Hs2. reflexivity.
  - rewrite Hs2. cbn [timers set_timeoutId set_timers]. apply lookup_insert_eq.
  - exact Hinv3.
  - exact Hc3.
  - apply Htimer. exact Hid2.
  - rewrite Hcb3. apply in_or_app. right. left. reflexivity.
  - intros evs Hq. destruct (untouched_run _ evs s3 Hq Hf3) as (_ & -> & _). exact Hinv3.
  - assert (Hok : handle (LineReceived "ok") s3 = processResponse "ok" s3) by reflexivity.
    rewrite step_idle; rewrite Hok, processResponse_ok.
    + cbn [trace set_moveCompleteCallbacks set_trace].
      rewrite invocations_app, Hinv3, Hcb3, map_app, invocations_app.
      rewrite (resolver_not_invoked _ _ (proj1 (proj2 Hun))). simpl.
      rewrite Nat.eqb_refl. reflexivity.
    + cbn [tasks set_moveCompleteCallbacks set_trace set_currentCommand].
      destruct (clearPendingTimeout_runtime s3) as (_ & _ & _ & -> & _).
      exact Hts3.
Qed.

Lemma error_outcome_invokes_nothing_witness :
  let s3 := run [Written 1 None; LineReceived "Error: Printer halted"]
              (snd (sendCommand "G1 X10" None connectedIdle)) in
  invocations 2 (trace s3) = []
  /\ invocations 2 (trace (run [TimerFired 1; Requested (SendCommand "M114" None)] s3)) = []
  /\ invocations 2 (trace (step (LineReceived "ok") s3)) = [Fulfilled].
Proof.
  assert (Hport : is_Some (port connectedIdle)) by (eexists; vm_compute; reflexivity).
  assert (Hconn : isConnected connectedIdle = true) by (vm_compute; reflexivity).
  assert (Hidle : currentCommand connectedIdle = None) by (vm_compute; reflexivity).
  assert (Htasks : tasks connectedIdle = []) by (vm_compute; reflexivity).
  assert (Hline : Text.startsWith "Error:" (Text.trim "Error: Printer halted") = true)
    by (vm_compute; reflexivity).
  pose proof (error_outcome_invokes_nothing "G1 X10" "Error: Printer halted" None
                connectedIdle Hconn Hport Hidle Htasks connectedIdle_reachable eq_refl Hline)
    as (_ & Hnow & _ & _ & _ & Hlater & Hok).
  split; [exact Hnow|]. split; [|exact Hok].
  apply (Hlater [TimerFired 1; Requested (SendCommand "M114" None)]).
  repeat constructor.
Defined.

(** X1.  The success outcome invokes the continuation exactly once.  A
    command is issued on a client in a reachable state, connected and idle,
    then written, and answered by the completion line: [resolve] is invoked,
    once, and whatever the renderer, the port and the timers do afterwards,
    nothing of its promise is invoked again. *)
Theorem ok_outcome_invokes_once (command line : string) (timeout : option JSNumber)
    (s : State) :
  isConnected s = true -> is_Some (port s) -> currentCommand s = None -> tasks s = [] ->
  reachable s ->
  expectsNoOk command = false ->
  Text.trim line = "ok" ->
  let p := fst (sendCommand command timeout s) in
  let s1 := snd (sendCommand command timeout s) in
  let s2 := step (Written (nextWrite s) None) s1 in
  let s3 := step (LineReceived line) s2 in
  invocations p (trace s3) = [Fulfilled]
  /\ currentCommand s3 = None
  /\ timers s3 !! nextTimer s = None
  /\ (forall evs, Forall (foreign p) evs -> invocations p (trace (run evs s3)) = [Fulfilled]).
Proof.
  intros Hc Hp _ Hts Hr Hcmd Hline p s1 s2 s3.
  pose proof (reachable_unused s Hr) as Hun.
  assert (Hp' : p = nextPromise s).
  { subst p. rewrite (sendCommand_connected command timeout s Hc Hp). reflexivity. }
  rewrite Hp'. clear Hp' p.
  assert (Hs2 : s2 = handle (Written (nextWrite s) None) (snd (sendCommand command timeout s)))
    by (apply issued_step; assumption).
  rewrite (issued_state command timeout s Hc Hp Hcmd) in Hs2.
  destruct (clearPendingTimeout_runtime s2) as (Htm & Hwr & Hcl & Htk & Hnp).
  destruct (clearPendingTimeout_fields s2) as (_ & _ & Htr & _).
  assert (Hid2 : timeoutId s2 = Some (nextTimer s)) by (rewrite Hs2; reflexivity).
  rewrite Hid2 in Htm.
  assert (Hh3 : handle (LineReceived line) s2 = processResponse "ok" s2)
    by (unfold handle; rewrite Hline; reflexivity).
  assert (Hs3 : s3 = processResponse "ok" s2).
  { unfold s3. rewrite step_idle; [exact Hh3|]. rewrite Hh3, processResponse_ok.
    cbn [tasks set_moveCompleteCallbacks set_trace set_currentCommand].
    rewrite Htk, Hs2. exact Hts. }
  rewrite processResponse_ok in Hs3.
  assert (Hinv3 : invocations (nextPromise s) (trace s3) = [Fulfilled]).
  { rewrite Hs3. cbn [trace set_moveCompleteCallbacks set_trace].
    rewrite invocations_app, Hs2.
    cbn [trace moveCompleteCallbacks set_timeoutId set_timers set_moveCompleteCallbacks
         set_writes set_trace].
    rewrite invocations_app, (proj1 Hun), map_app, invocations_app.
    rewrite (resolver_not_invoked _ _ (proj1 (proj2 Hun))). simpl.
    rewrite Nat.eqb_refl. reflexivity. }
  assert (Hr3 : retired (nextPromise s) s3).
  { split; [|rewrite Hs3; simpl; tauto].
    apply (forgotten_of_fields _ s s3
             (CommandTimeout command (default defaultTimeout timeout) (nextPromise s))
             {| wCommand := command; wTimeout := default defaultTimeout timeout;
                wPromise := nextPromise s |}).
    - exact Hun.
    - rewrite Hs3. cbn [nextPromise set_moveCompleteCallbacks set_trace set_currentCommand].
      rewrite Hnp, Hs2. simpl. lia.
    - rewrite Hs3. cbn [timers set_moveCompleteCallbacks set_trace set_currentCommand].
      rewrite Htm, Hs2. reflexivity.
    - rewrite Hs3. cbn [writes set_moveCompleteCallbacks set_trace set_currentCommand].
      rewrite Hwr, Hs2. reflexivity.
    - rewrite Hs3. cbn [closes set_moveCompleteCallbacks set_trace set_currentCommand].
      rewrite Hcl, Hs2. reflexivity.
    - rewrite Hs3. cbn [tasks set_moveCompleteCallbacks set_trace set_currentCommand].
      rewrite Htk, Hs2. reflexivity. }
  repeat apply conj.
  - exact Hinv3.
  - rewrite Hs3. reflexivity.
  - rewrite Hs3. cbn [timers set_moveCompleteCallbacks set_trace set_currentCommand].
    rewrite Htm. apply lookup_delete_eq.
  - intros evs Hq. destruct (retired_run _ evs s3 Hq Hr3) as [_ ->]. exact Hinv3.
Qed.

Lemma ok_outcome_invokes_once_witness :
  let s3 := run [Written 1 None; LineReceived "ok"]
              (snd (sendCommand "G1 X10" None connectedIdle)) in
  invocations 2 (trace s3) = [Fulfilled]
  /\ invocations 2 (trace (run [TimerFired 1; LineReceived "ok"] s3)) = [Fulfilled].
Proof.
  assert (Hport : is_Some (port connectedIdle)) by (eexists; vm_compute; reflexivity).
  assert (Hconn : isConnected connectedIdle = true) by (vm_compute; reflexivity).
  assert (Hidle : currentCommand connectedIdle = None) by (vm_compute; reflexivity).
  assert (Htasks : tasks connectedIdle = []) by (vm_compute; reflexivity).
  pose proof (ok_outcome_invokes_once "G1 X10" "ok" None
                connectedIdle Hconn Hport Hidle Htasks connectedIdle_reachable eq_refl eq_refl)
    as (Hnow & _ & _ & Hlater).
  split; [exact Hnow|].
  apply (Hlater [TimerFired 1; LineReceived "ok"]). repeat constructor.
Defined.

(** X2.  The timeout outcome invokes the continuation exactly once.  A
    command is issued on a client in a reachable state, connected and idle,
    then written, and its timer fires before any line arrives: [reject] is
    invoked with the timeout error, once, and whatever happens afterwards, a
    late completion line included, nothing of its promise is invoked
    again. *)
Theorem timeout_outcome_invokes_once (command : string) (timeout : option JSNumber)
    (s : State) :
  isConnected s = true -> is_Some (port s) -> currentCommand s = None -> tasks s = [] ->
  reachable s ->
  expectsNoOk command = false ->
  let p := fst (sendCommand command timeout s) in
  let s1 := snd (sendCommand command timeout s) in
  let s2 := step (Written (nextWrite s) None) s1 in
  let s3 := step (TimerFired (nextTimer s)) s2 in
  invocations p (trace s3) = [Rejected (TimedOut command (default defaultTimeout timeout))]
  /\ currentCommand s3 = None
  /\ (forall evs, Forall (foreign p) evs ->
        invocations p (trace (run evs s3))
        = [Rejected (TimedOut command (default defaultTimeout timeout))]).
Proof.
  intros Hc Hp _ Hts Hr Hcmd p s1 s2 s3.
  pose proof (reachable_unused s Hr) as Hun.
  assert (Hp' : p = nextPromise s).
  { subst p. rewrite (sendCommand_connected command timeout s Hc Hp). reflexivity. }
  rewrite Hp'. clear Hp' p.
  assert (Hs2 : s2 = handle (Written (nextWrite s) None) (snd (sendCommand command timeout s)))
    by (apply issued_step; assumption).
  rewrite (issued_state command timeout s Hc Hp Hcmd) in Hs2.
  assert (Hh3 : handle (TimerFired (nextTimer s)) s2
                = set_trace (trace s2
                     ++ (if mainWindow s2
                         then [RendererError
                                 (message (TimedOut command (default defaultTimeout timeout)))]
                         else [])
                     ++ [Settle (nextPromise s)
                           (Rejected (TimedOut command (default defaultTimeout timeout)))])%list
                    (set_currentCommand None
                       (set_moveCompleteCallbacks
                          (filter (fun cb => isNotResolveOf (nextPromise s) cb = true)
                             (moveCompleteCallbacks s2))
                          (set_timers (delete (nextTimer s) (timers s2)) (nextTimer s2) s2)))).
  { apply handle_TimerFired_current.
    - rewrite Hs2. cbn [timers set_timeoutId set_timers]. apply lookup_insert_eq.
    - rewrite Hs2. reflexivity. }
  assert (Hs3 : s3 = handle (TimerFired (nextTimer s)) s2).
  { unfold s3. apply step_idle. rewrite Hh3, Hs2. exact Hts. }
  rewrite Hh3 in Hs3.
  assert (Hinv3 : invocations (nextPromise s) (trace s3)
                  = [Rejected (TimedOut command (default defaultTimeout timeout))]).
  { rewrite Hs3. cbn [trace set_trace]. rewrite !invocations_app, invocations_renderer, Hs2.
    cbn [trace set_timeoutId set_timers set_moveCompleteCallbacks set_writes set_trace].
    rewrite invocations_app, (proj1 Hun). simpl. rewrite Nat.eqb_refl. reflexivity. }
  assert (Hr3 : retired (nextPromise s) s3).
  { split; [|rewrite Hs3; apply resolver_filtered_out].
    apply (forgotten_of_fields _ s s3
             (CommandTimeout command (default defaultTimeout timeout) (nextPromise s))
             {| wCommand := command; wTimeout := default defaultTimeout timeout;
                wPromise := nextPromise s |}).
    - exact Hun.
    - rewrite Hs3, Hs2. simpl. lia.
    - rewrite Hs3, Hs2. reflexivity.
    - rewrite Hs3, Hs2. reflexivity.
    - rewrite Hs3, Hs2. reflexivity.
    - rewrite Hs3, Hs2. reflexivity. }
  repeat apply conj.
  - exact Hinv3.
  - rewrite Hs3. reflexivity.
  - intros evs Hq. destruct (retired_run _ evs s3 Hq Hr3) as [_ ->]. exact Hinv3.
Qed.

Lemma timeout_outcome_invokes_once_witness :
  let s3 := run [Written 1 None; TimerFired 1]
              (snd (sendCommand "G1 X10" None connectedIdle)) in
  invocations 2 (trace s3) = [Rejected (TimedOut "G1 X10" defaultTimeout)]
  /\ invocations 2 (trace (run [LineReceived "ok"; TimerFired 1] s3))
     = [Rejected (TimedOut "G1 X10" defaultTimeout)].
Proof.
  assert (Hport : is_Some (port connectedIdle)) by (eexists; vm_compute; reflexivity).
  assert (Hconn : isConnected connectedIdle = true) by (vm_compute; reflexivity).
  assert (Hidle : currentCommand connectedIdle = None) by (vm_compute; reflexivity).
  assert (Htasks : tasks connectedIdle = []) by (vm_compute; reflexivity).
  pose proof (timeout_outcome_invokes_once "G1 X10" None
                connectedIdle Hconn Hport Hidle Htasks connectedIdle_reachable eq_refl)
    as (Hnow & _ & Hlater).
  split; [exact Hnow|].
  apply (Hlater [LineReceived "ok"; TimerFired 1]). repeat constructor.
Defined.

(** A whole run: a relative move of 5 along x on a connected client whose
    printer never answers.  [G91] is written and times out; the move
    command is never sent; [G90] is written and times out as well, which is
    only logged; the promise of [deltaMove] is rejected, once, with the
    timeout of [G91]. *)
Example unanswered_relative_move :
  let request := DeltaMove {| x := Some (Decimal false 5 0); y := None; z := None |} false in
  let s := run [Requested request; Written 1 None; TimerFired 1; Written 2 None; TimerFired 2]
             connectedIdle in
  wire (trace s) = ["M115" ++ Text.newline; "G91" ++ Text.newline; "G90" ++ Text.newline]
  /\ invocations 2 (trace s) = [Rejected (TimedOut "G91" defaultTimeout)]
  /\ In (LogError "Failed to restore absolute positioning after error:"
           (TimedOut "G90" defaultTimeout)) (trace s)
  /\ tasks s = [].
Proof. vm_compute. repeat split. auto 20. Qed.

(** ** Fresh promises, and the fields of a state *)

Lemma below_unused n s : below n s -> unused n s.
Proof.
  intros (Htr & Hcb & Ht & Hw & Hc & Hk).
  repeat apply conj.
  - destruct (invocations n (trace s)) as [|o rest] eqn:E; [reflexivity|].
    exfalso. assert (Hin : In (Settle n o) (trace s)).
    { clear -E. induction (trace s) as [|ob tr IH]; simpl in E; [discriminate|].
      destruct ob; simpl in E; try (right; apply IH; exact E).
      destruct (Nat.eqb_spec p n) as [->|_].
      - injection E as -> _. left. reflexivity.
      - right. apply IH. exact E. }
    specialize (Htr _ _ Hin). lia.
  - intros Hin. specialize (Hcb _ Hin). lia.
  - eapply map_Forall_impl; [exact Ht|]. simpl. intros. lia.
  - eapply map_Forall_impl; [exact Hw|]. simpl. intros. lia.
  - eapply map_Forall_impl; [exact Hc|]. simpl. intros. lia.
  - eapply Forall_impl; [exact Hk|]. simpl. intros. lia.
Qed.

(** No promise with an id from [nextPromise] on was ever invoked. *)
Lemma fresh_above s n : tidy s -> nextPromise s <= n -> invocations n (trace s) = [].
Proof.
  intros Hs Hn. exact (proj1 (below_unused n s (below_weaken _ _ s Hn Hs))).
Qed.

Ltac ids :=
  repeat match goal with
         | |- context [Nat.eqb ?a ?b] => destruct (Nat.eqb_spec a b); try lia
         end.

Lemma runMicrotasks_parked h t :
  tasks h = [t] -> promiseState (awaiting t) h = None -> runMicrotasks h = h.
Proof.
  intros Ht Hp. unfold runMicrotasks. rewrite Ht. simpl.
  change (promiseState (awaiting t) (set_tasks [] h)) with (promiseState (awaiting t) h).
  rewrite Hp. unfold park. destruct h, t; simpl in *; subst; reflexivity.
Qed.

Lemma settle_after p o ts tr s :
  settle p o (set_tasks ts (set_trace tr s)) = set_tasks ts (set_trace (tr ++ [Settle p o])%list s).
Proof. destruct s; reflexivity. Qed.

Ltac fields :=
  cbn [port currentSpeed isConnected moveCompleteCallbacks errorCallbacks currentCommand
       timeoutId mainWindow timers nextTimer writes nextWrite closes nextClose nextPromise
       tasks trace
       set_port set_currentSpeed set_isConnected set_moveCompleteCallbacks set_errorCallbacks
       set_currentCommand set_timeoutId set_mainWindow set_timers set_writes set_closes
       set_nextPromise set_tasks set_trace
       fst snd observe settle newPromise setTimeout clearTimeout portWrite portClose park
       awaiting continuation wCommand wTimeout wPromise path opener].

Ltac fields_in H :=
  cbn [port currentSpeed isConnected moveCompleteCallbacks errorCallbacks currentCommand
       timeoutId mainWindow timers nextTimer writes nextWrite closes nextClose nextPromise
       tasks trace
       set_port set_currentSpeed set_isConnected set_moveCompleteCallbacks set_errorCallbacks
       set_currentCommand set_timeoutId set_mainWindow set_timers set_writes set_closes
       set_nextPromise set_tasks set_trace
       fst snd observe settle newPromise setTimeout clearTimeout portWrite portClose park
       awaiting continuation wCommand wTimeout wPromise path opener] in H.

(** ** One command of a sequence *)

(** An [async] function sends a command and waits for it. *)
Lemma send_and_park command k run h :
  isConnected h = true -> is_Some (port h) -> tidy h ->
  (let '(p, s) := sendCommand command None h in await p k run s)
  = park (nextPromise h) k (snd (sendCommand command None h)).
Proof.
  intros Hc Hp Hs. rewrite (sendCommand_connected command None h Hc Hp). cbn [snd].
  unfold await, promiseState. fields.
  rewrite invocations_app, (fresh_above h (nextPromise h) Hs (le_n _)). reflexivity.
Qed.

(** One command of a sequence: the function parked on it resumes, in the
    turn of the [ok] line, on the state [answered] describes. *)
Lemma round_trip command k h :
  isConnected h = true -> is_Some (port h) -> tasks h = [] -> tidy h ->
  expectsNoOk command = false ->
  let h1 := park (nextPromise h) k (snd (sendCommand command None h)) in
  let h2 := step (Written (nextWrite h) None) h1 in
  trace h2 = trace h1
  /\ step (LineReceived "ok") h2 = resume k Fulfilled (answered command h).
Proof.
  intros Hc Hp Hts Hs Hcmd h1 h2.
  pose proof (fresh_above h (nextPromise h) Hs (le_n _)) as Hfresh.
  pose proof (tidy_unused h Hs) as Hun.
  assert (Hh1 : h1 = park (nextPromise h) k (snd (sendCommand command None h))) by reflexivity.
  rewrite (sendCommand_connected command None h Hc Hp) in Hh1. cbn [snd] in Hh1.
  unfold park in Hh1. fields_in Hh1. rewrite Hts in Hh1. cbn [app] in Hh1.
  assert (Hw : handle (Written (nextWrite h) None) h1
               = set_timeoutId (Some (nextTimer h1))
                   (set_timers (<[nextTimer h1 := CommandTimeout command defaultTimeout
                                                    (nextPromise h)]> (timers h1))
                      (S (nextTimer h1))
                      (set_moveCompleteCallbacks
                         (moveCompleteCallbacks h1 ++ [ResolveOf (nextPromise h)])%list
                         (set_writes (delete (nextWrite h) (writes h1)) (nextWrite h1) h1)))).
  { apply (handle_Written_waits (nextWrite h)
             {| wCommand := command; wTimeout := defaultTimeout; wPromise := nextPromise h |});
      [|exact Hcmd].
    rewrite Hh1. fields. apply lookup_insert_eq. }
  assert (Hh2 : h2 = handle (Written (nextWrite h) None) h1).
  { unfold h2, step. apply (runMicrotasks_parked _ {| awaiting := nextPromise h; continuation := k |}).
    - rewrite Hw, Hh1. reflexivity.
    - rewrite Hw, Hh1. unfold promiseState. fields. rewrite invocations_app, Hfresh.
      reflexivity. }
  rewrite Hw in Hh2. split; [rewrite Hh2; reflexivity|].
  assert (Hok : handle (LineReceived "ok") h2 = processResponse "ok" h2) by reflexivity.
  unfold step. rewrite Hok, processResponse_ok.
  assert (Hid : timeoutId h2 = Some (nextTimer h)) by (rewrite Hh2, Hh1; reflexivity).
  unfold clearPendingTimeout. rewrite Hid.
  rewrite (runMicrotasks_single _ (nextPromise h) k Fulfilled).
  - f_equal. rewrite Hh2, Hh1. unfold answered. fields. rewrite map_app, <- !app_assoc.
    cbn [map invoked app]. clear -Hts. destruct h; simpl in Hts; subst; reflexivity.
  - rewrite Hh2, Hh1. reflexivity.
  - unfold promiseState. fields. rewrite Hh2, Hh1. fields.
    rewrite map_app, !invocations_app, Hfresh.
    rewrite (resolver_not_invoked _ _ (proj1 (proj2 Hun))).
    cbn [map invoked invocations settles app]. rewrite Nat.eqb_refl. reflexivity.
Qed.

Lemma wire_invoked cbs : wire (map invoked cbs) = [].
Proof. induction cbs as [|[p|n] cbs IH]; simpl; auto. Qed.

Lemma tidy_answered command h : tidy h -> tidy (answered command h).
Proof.
  intros (Htr & Hcb & Ht & Hw & Hc & Hk). unfold tidy, below, answered. fields.
  repeat apply conj.
  - intros q o Hin. apply in_app_or in Hin as [Hin|Hin]; [specialize (Htr _ _ Hin); lia|].
    destruct Hin as [Hin|[Hin|Hin]]; try discriminate Hin.
    apply in_app_or in Hin as [Hin|[Hin|[]]].
    + apply in_map_iff in Hin as ([q'|n] & Heq & Hin'); simpl in Heq; [|discriminate Heq].
      injection Heq as -> _. specialize (Hcb _ Hin'). lia.
    + injection Hin as <- _. lia.
  - intros q [].
  - rewrite delete_insert_eq. apply map_Forall_delete.
    eapply map_Forall_impl; [exact Ht|]. simpl. intros. lia.
  - rewrite delete_insert_eq. apply map_Forall_delete.
    eapply map_Forall_impl; [exact Hw|]. simpl. intros. lia.
  - eapply map_Forall_impl; [exact Hc|]. simpl. intros. lia.
  - eapply Forall_impl; [exact Hk|]. simpl. intros. lia.
Qed.

Lemma tidy_newPromise h : tidy h -> tidy (set_nextPromise (S (nextPromise h)) h).
Proof. intros Hs. apply (below_weaken (nextPromise h)); [simpl; lia|exact Hs]. Qed.

Lemma wire_answered command h :
  wire (trace (answered command h))
  = (wire (trace h) ++ [(command ++ Text.newline)%string])%list.
Proof.
  unfold answered. fields. rewrite wire_app. cbn [wire]. rewrite wire_app, wire_invoked.
  reflexivity.
Qed.

Lemma invocations_answered q command h :
  q <> nextPromise h -> ~ In (ResolveOf q) (moveCompleteCallbacks h) ->
  invocations q (trace (answered command h)) = invocations q (trace h).
Proof.
  intros Hne Hnot. unfold answered. fields. rewrite invocations_app.
  cbn [invocations settles]. rewrite invocations_app, (resolver_not_invoked q _ Hnot).
  cbn [invocations settles app]. ids. apply app_nil_r.
Qed.

Lemma expectsNoOk_moveText rapid a speed : expectsNoOk (moveText rapid a speed) = false.
Proof.
  assert (H : exists rest, moveText rapid a speed = String "G" rest).
  { unfold moveText. destruct rapid, (x a), (y a), (z a), (isPositive speed); simpl;
      eexists; reflexivity. }
  destruct H as [rest ->]. reflexivity.
Qed.

Lemma deltaMove_connected distance rapid s :
  isConnected s = true -> is_Some (port s) -> tidy s ->
  deltaMove distance rapid s
  = (nextPromise s,
     park (S (nextPromise s)) (DeltaEntered distance rapid (nextPromise s))
       (snd (sendCommand "G91" None (set_nextPromise (S (nextPromise s)) s)))).
Proof.
  intros Hc Hp Hs. unfold deltaMove, newPromise.
  rewrite (sendCommand_connected "G91" None (set_nextPromise (S (nextPromise s)) s) Hc Hp).
  cbn [snd]. unfold await, promiseState. fields.
  rewrite invocations_app, (fresh_above s (S (nextPromise s)) Hs) by lia. reflexivity.
Qed.

(** ** A parked function does not matter to the others *)

Lemma sendCommand_withTasks ts command timeout s :
  sendCommand command timeout (withTasks ts s)
  = (fst (sendCommand command timeout s), withTasks ts (snd (sendCommand command timeout s))).
Proof.
  unfold sendCommand, newPromise, portWrite, settle, sendErrorToRenderer, observe, withTasks.
  destruct s; cbn.
  repeat match goal with
         | |- context [if ?x then _ else _] => destruct x eqn:?; cbn
         end; reflexivity.
Qed.

Lemma withTasks_nil s : withTasks [] s = s.
Proof. destruct s; reflexivity. Qed.

Lemma promiseState_withTasks p ts s : promiseState p (withTasks ts s) = promiseState p s.
Proof. reflexivity. Qed.

Lemma settle_withTasks p o ts s : settle p o (withTasks ts s) = withTasks ts (settle p o s).
Proof. reflexivity. Qed.

Lemma observe_withTasks o ts s : observe o (withTasks ts s) = withTasks ts (observe o s).
Proof. reflexivity. Qed.

Lemma park_withTasks p k ts s : park p k (withTasks ts s) = withTasks ts (park p k s).
Proof. unfold park, withTasks. simpl. rewrite <- app_assoc. reflexivity. Qed.

Lemma await_withTasks p k run ts s :
  (forall o st, run o (withTasks ts st) = withTasks ts (run o st)) ->
  await p k run (withTasks ts s) = withTasks ts (await p k run s).
Proof.
  intros Hrun. unfold await. rewrite promiseState_withTasks.
  destruct (promiseState p s); [apply Hrun|apply park_withTasks].
Qed.

Lemma deltaRestored_withTasks error result o ts s :
  deltaRestored error result o (withTasks ts s) = withTasks ts (deltaRestored error result o s).
Proof. destruct o; reflexivity. Qed.

Lemma deltaCatch_withTasks error result ts s :
  deltaCatch error result (withTasks ts s) = withTasks ts (deltaCatch error result s).
Proof.
  unfold deltaCatch. rewrite sendCommand_withTasks.
  destruct (sendCommand "G90" None s) as [p s1]. cbn [fst snd].
  apply await_withTasks. intros. apply deltaRestored_withTasks.
Qed.

Lemma deltaMoved_withTasks result o ts s :
  deltaMoved result o (withTasks ts s) = withTasks ts (deltaMoved result o s).
Proof.
  unfold deltaMoved. destruct o; [|apply deltaCatch_withTasks].
  rewrite sendCommand_withTasks.
  destruct (sendCommand "G90" None s) as [p s1]. cbn [fst snd].
  apply await_withTasks. intros. apply settle_withTasks.
Qed.

Lemma deltaEntered_withTasks distance rapid result o ts s :
  deltaEntered distance rapid result o (withTasks ts s)
  = withTasks ts (deltaEntered distance rapid result o s).
Proof.
  unfold deltaEntered. destruct o; [|apply deltaCatch_withTasks].
  change (currentSpeed (withTasks ts s)) with (currentSpeed s).
  rewrite sendCommand_withTasks.
  destruct (sendCommand (moveText rapid distance (currentSpeed s)) None s) as [p s1].
  cbn [fst snd]. apply await_withTasks. intros. apply deltaMoved_withTasks.
Qed.

Lemma handshakeSent_withTasks connecting o ts s :
  handshakeSent connecting o (withTasks ts s) = withTasks ts (handshakeSent connecting o s).
Proof. destruct o; reflexivity. Qed.

Lemma resume_withTasks k o ts s : resume k o (withTasks ts s) = withTasks ts (resume k o s).
Proof.
  destruct k; simpl.
  - apply handshakeSent_withTasks.
  - apply deltaEntered_withTasks.
  - apply deltaMoved_withTasks.
  - apply settle_withTasks.
  - apply deltaRestored_withTasks.
Qed.

Lemma resumeAll_withTasks rest ts s :
  resumeAll rest (withTasks ts s) = withTasks ts (resumeAll rest s).
Proof.
  revert s. induction rest as [|t rest IH]; intros s; simpl; [reflexivity|].
  rewrite promiseState_withTasks. destruct (promiseState (awaiting t) s).
  - rewrite resume_withTasks. apply IH.
  - rewrite park_withTasks. apply IH.
Qed.

Lemma serve_withTasks r ts s :
  serve r (withTasks ts s) = (fst (serve r s), withTasks ts (snd (serve r s))).
Proof.
  destruct r as [portPath thrown| |ax ay az| |speed|position rapid|distance rapid
                |command timeout]; simpl; try apply sendCommand_withTasks.
  - unfold connect, newPromise, settle, sendErrorToRenderer, observe, withTasks.
    destruct s, thrown; cbn;
      repeat match goal with
             | |- context [if ?x then _ else _] => destruct x eqn:?; cbn
             end; reflexivity.
  - unfold disconnect, newPromise, clearPendingTimeout, clearTimeout, portClose, settle,
      observe, withTasks.
    destruct s as [pt ? conn ? ? ? tid ? ? ? ? ? ? ? ? ? ?]; cbn.
    destruct conn, tid, pt; reflexivity.
  - unfold setSpeed, newPromise, settle, observe, withTasks. destruct s; reflexivity.
  - unfold deltaMove, newPromise. cbn [fst snd].
    change (set_nextPromise (S (nextPromise (withTasks ts s))) (withTasks ts s))
      with (withTasks ts (set_nextPromise (S (nextPromise s)) s)).
    rewrite sendCommand_withTasks.
    destruct (sendCommand "G91" None (set_nextPromise (S (nextPromise s)) s)) as [p s1].
    cbn [fst snd]. f_equal. apply await_withTasks. intros. apply deltaEntered_withTasks.
Qed.

Lemma onOk_withTasks ts s : onOk (withTasks ts s) = withTasks ts (onOk s).
Proof.
  unfold onOk. rewrite !invokeAll_trace. unfold clearPendingTimeout, clearTimeout, withTasks.
  destruct s as [? ? ? ? ? ? tid ? ? ? ? ? ? ? ? ? ?]. destruct tid; reflexivity.
Qed.

Lemma onErrorLine_withTasks line ts s :
  onErrorLine line (withTasks ts s) = withTasks ts (onErrorLine line s).
Proof.
  rewrite !onErrorLine_state. unfold clearPendingTimeout, clearTimeout, withTasks.
  destruct s as [? ? ? ? ? ? tid ? ? ? ? ? ? ? ? ? ?]. destruct tid; reflexivity.
Qed.

Lemma processResponse_withTasks line ts s :
  processResponse line (withTasks ts s) = withTasks ts (processResponse line s).
Proof.
  unfold processResponse.
  destruct (String.eqb line "ok"), (Text.startsWith "Error:" line);
    rewrite ?onOk_withTasks, ?onErrorLine_withTasks; reflexivity.
Qed.

Lemma handle_withTasks ev ts s : handle ev (withTasks ts s) = withTasks ts (handle ev s).
Proof.
  destruct ev as [r|pt|pt detail|line|w err|t|c err]; unfold handle.
  - rewrite serve_withTasks. reflexivity.
  - reflexivity.
  - unfold onPortError, settle, sendErrorToRenderer, observe, withTasks.
    destruct s; cbn. match goal with |- context [if ?b then _ else _] => is_var b; destruct b end; reflexivity.
  - apply processResponse_withTasks.
  - change (writes (withTasks ts s)) with (writes s).
    destruct (writes s !! w) as [closure|]; [|reflexivity].
    unfold onWritten, setTimeout, onMoveComplete, settle, sendErrorToRenderer, observe,
      withTasks.
    destruct s; cbn. destruct err; cbn.
    + match goal with |- context [if ?b then _ else _] => is_var b; destruct b end; reflexivity.
    + destruct (expectsNoOk (wCommand closure)); reflexivity.
  - change (timers (withTasks ts s)) with (timers s).
    destruct (timers s !! t) as [[connecting|command timeout p]|]; [| |reflexivity].
    + unfold onHandshake.
      change (clearTimeout t (withTasks ts s)) with (withTasks ts (clearTimeout t s)).
      rewrite sendCommand_withTasks.
      destruct (sendCommand "M115" None (clearTimeout t s)) as [p s1]. cbn [fst snd].
      apply await_withTasks. intros. apply handshakeSent_withTasks.
    + unfold onTimeout, clearTimeout, settle, sendErrorToRenderer, observe, withTasks.
      destruct s; cbn. destruct (bool_decide _); [|reflexivity].
      match goal with |- context [if ?b then _ else _] => is_var b; destruct b end; reflexivity.
  - change (closes (withTasks ts s)) with (closes s).
    destruct (closes s !! c) as [p|]; [|reflexivity].
    unfold onClosed, settle, sendErrorToRenderer, observe, withTasks.
    destruct s; cbn. destruct err; cbn; [match goal with |- context [if ?b then _ else _] => is_var b; destruct b end|]; reflexivity.
Qed.

(** A function parked on a promise that is not settled stays parked over
    the turn. *)
Lemma step_withTasks ev t s :
  promiseState (awaiting t) (handle ev s) = None ->
  step ev (withTasks [t] s) = withTasks [t] (step ev s).
Proof.
  intros Hp. unfold step. rewrite handle_withTasks. unfold runMicrotasks.
  change (tasks (withTasks [t] (handle ev s))) with (t :: tasks (handle ev s)).
  change (set_tasks [] (withTasks [t] (handle ev s))) with (set_tasks [] (handle ev s)).
  cbn [resumeAll].
  change (promiseState (awaiting t) (set_tasks [] (handle ev s)))
    with (promiseState (awaiting t) (handle ev s)).
  rewrite Hp.
  assert (Hpark : park (awaiting t) (continuation t) (set_tasks [] (handle ev s))
                  = withTasks [t] (set_tasks [] (handle ev s))).
  { unfold park, withTasks. destruct t. reflexivity. }
  rewrite Hpark. apply resumeAll_withTasks.
Qed.

(** As long as no completion line arrives, a function parked on a promise
    that nothing else can settle stays parked, and the turns go as they
    would without it. *)
Lemma run_withTasks evs t s :
  Forall (quiet (awaiting t)) evs ->
  forgotten (awaiting t) s -> invocations (awaiting t) (trace s) = [] ->
  run evs (withTasks [t] s) = withTasks [t] (run evs s).
Proof.
  revert s. induction evs as [|ev evs IH]; intros s Hq Hf Hinv; [reflexivity|].
  inversion Hq as [|? ? Hev Hrest]; subst.
  destruct (untouched_handle (awaiting t) ev s Hev Hf) as (_ & Hh & _).
  destruct (untouched_step (awaiting t) ev s Hev Hf) as (Hf' & Hs & _).
  unfold run. simpl. rewrite step_withTasks.
  - apply IH; [exact Hrest|exact Hf'|]. rewrite Hs. exact Hinv.
  - unfold promiseState. rewrite Hh, Hinv. reflexivity.
Qed.

(** A function parked on a promise that only a completion line can settle
    does not go on, and the promise it would settle is not settled,
    whatever else happens. *)
Lemma parked_until_ok evs t s :
  Forall (quiet (awaiting t)) evs ->
  Forall (quiet (continuationTarget (continuation t))) evs ->
  forgotten (awaiting t) s -> invocations (awaiting t) (trace s) = [] ->
  forgotten (continuationTarget (continuation t)) s ->
  let s' := run evs (withTasks [t] s) in
  invocations (awaiting t) (trace s') = []
  /\ invocations (continuationTarget (continuation t)) (trace s')
     = invocations (continuationTarget (continuation t)) (trace s)
  /\ In t (tasks s').
Proof.
  intros Hq Hq' Hf Hinv Hf' s'. subst s'. rewrite (run_withTasks evs t s Hq Hf Hinv).
  destruct (untouched_run _ evs s Hq Hf) as (_ & Hp & _).
  destruct (untouched_run _ evs s Hq' Hf') as (_ & Hr & _).
  repeat apply conj.
  - change (trace (withTasks [t] (run evs s))) with (trace (run evs s)). rewrite Hp. exact Hinv.
  - exact Hr.
  - left. reflexivity.
Qed.

(** ** The move answered by an error line *)

Lemma run_snoc evs ev s : run (evs ++ [ev]) s = step ev (run evs s).
Proof. unfold run. apply fold_left_app. Qed.

Lemma park_alone p k s :
  tasks s = [] -> park p k s = withTasks [{| awaiting := p; continuation := k |}] s.
Proof. intros H. unfold park, withTasks. rewrite H. reflexivity. Qed.

Lemma withTasks_alone t s : tasks s = [t] -> s = withTasks [t] (set_tasks [] s).
Proof. intros H. unfold withTasks. destruct s; simpl in *; subst; reflexivity. Qed.

(** A command sent by a parked function, once written: the function stays
    parked beside the state [issued_state] gives. *)
Lemma sent_parked command k h :
  isConnected h = true -> is_Some (port h) -> tasks h = [] -> tidy h ->
  expectsNoOk command = false ->
  step (Written (nextWrite h) None)
    (withTasks [{| awaiting := nextPromise h; continuation := k |}]
       (snd (sendCommand command None h)))
  = withTasks [{| awaiting := nextPromise h; continuation := k |}]
      (handle (Written (nextWrite h) None) (snd (sendCommand command None h))).
Proof.
  intros Hc Hp Hts Hs Hcmd.
  rewrite step_withTasks.
  - rewrite (issued_step command None h Hc Hp Hcmd Hts). reflexivity.
  - cbn [awaiting]. rewrite (issued_state command None h Hc Hp Hcmd).
    unfold promiseState. fields.
    rewrite invocations_app, (fresh_above h (nextPromise h) Hs (le_n _)). reflexivity.
Qed.

Lemma attempts_notified text listeners :
  attempts (map (fun n => Notify n (Some text)) listeners) = [].
Proof. induction listeners; simpl; auto. Qed.

Lemma wire_notified text listeners :
  wire (map (fun n => Notify n (Some text)) listeners) = [].
Proof. induction listeners; simpl; auto. Qed.

Lemma unused_answered q command h :
  unused q h -> q <> nextPromise h -> unused q (answered command h).
Proof.
  intros (Hinv & Hcb & Ht & Hw & Hc & Hk) Hne. unfold unused, answered. fields.
  rewrite !delete_insert_eq. repeat apply conj.
  - rewrite invocations_app, Hinv. cbn [invocations settles app].
    rewrite invocations_app, (resolver_not_invoked q _ Hcb).
    cbn [invocations settles app]. destruct (Nat.eqb_spec (nextPromise h) q); [congruence|].
    reflexivity.
  - intros [].
  - apply map_Forall_delete. exact Ht.
  - apply map_Forall_delete. exact Hw.
  - exact Hc.
  - exact Hk.
Qed.

Lemma tidy_set_tasks_nil s : tidy s -> tidy (set_tasks [] s).
Proof.
  intros (Htr & Hcb & Ht & Hw & Hc & Hk). unfold tidy, below. fields.
  repeat apply conj; try assumption. constructor.
Qed.

(** C4, where the code departs from it.  A relative move is requested on a
    connected client in a reachable state with no function parked; [G91] is
    written and answered by [ok], the move is written, and the printer
    answers it with an error line.  [deltaMove] does not attempt [G90]:
    in that turn nothing is sent and no promise is settled, the timer of the
    move is cancelled, and [deltaMove] stays parked on the promise of the
    move.  Whatever happens afterwards, short of a completion line, the
    promise of [deltaMove] is not settled and the function stays parked: the
    failure is not reported and absolute mode is not restored.  A completion
    line, which answers some later command, makes [deltaMove] go on as if
    the move had succeeded: [G90] is written and, once that is answered, the
    promise of [deltaMove] is fulfilled. *)
Theorem move_error_skips_restore (distance : Axes) (rapid : bool) (line : string) (s : State) :
  reachable s -> isConnected s = true -> is_Some (port s) -> tasks s = [] ->
  Text.startsWith "Error:" (Text.trim line) = true ->
  let result := fst (deltaMove distance rapid s) in
  let pm := S (S result) in
  let move := moveText rapid distance (currentSpeed s) in
  let w := nextWrite s in
  let parked := {| awaiting := pm; continuation := DeltaMoved result |} in
  let a2 := run [Requested (DeltaMove distance rapid); Written w None; LineReceived "ok";
                 Written (S w) None] s in
  let e := step (LineReceived line) a2 in
  let f := step (LineReceived "ok") e in
  (wire (trace a2)
   = (wire (trace s) ++ [("G91" ++ Text.newline)%string; (move ++ Text.newline)%string])%list
   /\ currentCommand a2 = Some move
   /\ timers a2 !! S (nextTimer s) = Some (CommandTimeout move defaultTimeout pm)
   /\ tasks a2 = [parked])
  /\ (attempts (trace e) = attempts (trace a2)
      /\ wire (trace e) = wire (trace a2)
      /\ (forall p, invocations p (trace e) = invocations p (trace a2))
      /\ invocations pm (trace e) = []
      /\ invocations result (trace e) = []
      /\ currentCommand e = None
      /\ timers e !! S (nextTimer s) = None
      /\ tasks e = [parked])
  /\ (forall evs, Forall (quiet pm) evs -> Forall (quiet result) evs ->
        invocations pm (trace (run evs e)) = []
        /\ invocations result (trace (run evs e)) = []
        /\ In parked (tasks (run evs e)))
  /\ (wire (trace f) = (wire (trace e) ++ [("G90" ++ Text.newline)%string])%list
      /\ invocations pm (trace f) = [Fulfilled]
      /\ invocations result
           (trace (run [Written (S (S w)) None; LineReceived "ok"] f)) = [Fulfilled]).
Proof.
  intros Hr Hc Hp Hts Hprefix result pm move w parked a2 e f.
  pose proof (reachable_tidy s Hr) as Hs.
  pose proof (reachable_unused s Hr) as Hun.
  set (s0 := set_nextPromise (S (nextPromise s)) s).
  set (A1 := answered "G91" s0).
  assert (Hs0 : tidy s0) by (apply tidy_newPromise; exact Hs).
  assert (HA1 : tidy A1) by (apply tidy_answered; exact Hs0).
  assert (Hres : result = nextPromise s).
  { unfold result. rewrite (deltaMove_connected distance rapid s Hc Hp Hs). reflexivity. }
  assert (Hpm : pm = nextPromise A1) by (unfold pm; rewrite Hres; reflexivity).
  (* the request and G91 *)
  assert (E0 : step (Requested (DeltaMove distance rapid)) s
               = park (nextPromise s0) (DeltaEntered distance rapid (nextPromise s))
                   (snd (sendCommand "G91" None s0))).
  { unfold step, handle, serve. rewrite (deltaMove_connected distance rapid s Hc Hp Hs).
    cbn [snd]. fold s0.
    apply (runMicrotasks_parked _ {| awaiting := S (nextPromise s);
                                     continuation := DeltaEntered distance rapid
                                                       (nextPromise s) |}).
    - rewrite (sendCommand_connected "G91" None s0 Hc Hp). unfold park, s0. fields.
      rewrite Hts. reflexivity.
    - rewrite (sendCommand_connected "G91" None s0 Hc Hp). unfold park, promiseState, s0.
      fields.
      rewrite invocations_app, (fresh_above s (S (nextPromise s)) Hs) by lia. reflexivity. }
  destruct (round_trip "G91" (DeltaEntered distance rapid (nextPromise s)) s0
              Hc Hp Hts Hs0 eq_refl) as [_ R1].
  rewrite <- E0 in R1.
  assert (Eb1 : run [Requested (DeltaMove distance rapid); Written w None; LineReceived "ok"] s
                = withTasks [parked] (snd (sendCommand move None A1))).
  { change (run [Requested (DeltaMove distance rapid); Written w None; LineReceived "ok"] s)
      with (step (LineReceived "ok")
              (step (Written (nextWrite s0) None)
                 (step (Requested (DeltaMove distance rapid)) s))).
    rewrite R1. fold A1. unfold resume, deltaEntered.
    change (currentSpeed A1) with (currentSpeed s). fold move.
    rewrite (send_and_park move _ _ A1 Hc Hp HA1).
    rewrite park_alone.
    - unfold parked. rewrite Hpm, Hres. reflexivity.
    - rewrite (sendCommand_connected move None A1 Hc Hp). exact Hts. }
  (* the move is written *)
  set (I := handle (Written (nextWrite A1) None) (snd (sendCommand move None A1))).
  assert (Ea2 : a2 = withTasks [parked] I).
  { unfold a2.
    etransitivity;
      [exact (run_snoc [Requested (DeltaMove distance rapid); Written w None; LineReceived "ok"]
                (Written (S w) None) s)|].
    rewrite Eb1. replace (S w) with (nextWrite A1) by reflexivity. unfold parked. rewrite Hpm, Hres.
    apply (sent_parked move (DeltaMoved (nextPromise s)) A1 Hc Hp Hts HA1).
    apply expectsNoOk_moveText. }
  assert (HI : I = handle (Written (nextWrite A1) None) (snd (sendCommand move None A1)))
    by reflexivity.
  rewrite (issued_state move None A1 Hc Hp (expectsNoOk_moveText _ _ _)) in HI.
  cbn [default] in HI.
  assert (HtsI : tasks I = []) by (rewrite HI; exact Hts).
  assert (HtrI : trace I = (trace A1 ++ [Call move; PortWrite (move ++ Text.newline)])%list)
    by (rewrite HI; reflexivity).
  assert (HcbI : moveCompleteCallbacks I = [ResolveOf pm]) by (rewrite HI, Hpm; reflexivity).
  assert (HidI : timeoutId I = Some (S (nextTimer s))) by (rewrite HI; reflexivity).
  assert (HunR : unused result A1).
  { apply unused_answered; [|rewrite Hres; unfold s0; simpl; lia].
    rewrite Hres. exact Hun. }
  assert (HunM : unused pm A1) by (rewrite Hpm; apply tidy_unused; exact HA1).
  (* the error line *)
  set (e0 := processResponse (Text.trim line) I).
  destruct (error_line_rejects_nothing_aux (Text.trim line) I Hprefix)
    as (Hcur0 & Hid0 & Htm0 & Htr0 & Hinv0 & Hcb0).
  cbv zeta in Hcur0, Hid0, Htm0, Htr0, Hinv0, Hcb0.
  fold e0 in Hcur0, Hid0, Htm0, Htr0, Hinv0, Hcb0.
  assert (He0 : e0 = onErrorLine (Text.trim line) I)
    by (apply processResponse_error; exact Hprefix).
  rewrite onErrorLine_state in He0. cbv zeta in He0.
  assert (Hclear : clearPendingTimeout I = set_timeoutId None (clearTimeout (S (nextTimer s)) I)).
  { unfold clearPendingTimeout. rewrite HidI. reflexivity. }
  rewrite Hclear in He0.
  assert (Hts0 : tasks e0 = []) by (rewrite He0; exact HtsI).
  assert (Hinvm0 : invocations pm (trace e0) = []).
  { rewrite Hinv0, HtrI, invocations_app, (proj1 HunM). reflexivity. }
  assert (Hinvr0 : invocations result (trace e0) = []).
  { rewrite Hinv0, HtrI, invocations_app, (proj1 HunR). reflexivity. }
  assert (Ee : e = withTasks [parked] e0).
  { unfold e. rewrite Ea2, step_withTasks.
    - rewrite step_idle; [reflexivity|exact Hts0].
    - exact (f_equal head Hinvm0). }
  assert (Hfm : forgotten pm e0).
  { apply (forgotten_of_fields pm A1 e0
             (CommandTimeout move defaultTimeout pm)
             {| wCommand := move; wTimeout := defaultTimeout; wPromise := nextPromise A1 |}
             HunM).
    - rewrite He0, HI, Hpm. simpl. lia.
    - rewrite He0, HI, Hpm. reflexivity.
    - rewrite He0, HI. reflexivity.
    - rewrite He0, HI. reflexivity.
    - rewrite He0, HI. reflexivity. }
  assert (Hfr : forgotten result e0).
  { apply (forgotten_of_fields result A1 e0
             (CommandTimeout move defaultTimeout pm)
             {| wCommand := move; wTimeout := defaultTimeout; wPromise := nextPromise A1 |}
             HunR).
    - rewrite He0, HI, Hres. simpl. lia.
    - rewrite He0, HI, Hpm. reflexivity.
    - rewrite He0, HI. reflexivity.
    - rewrite He0, HI. reflexivity.
    - rewrite He0, HI. reflexivity. }
  split; [|split; [|split]].
  - (* relative mode is entered and the move is pending *)
    rewrite Ea2. repeat apply conj.
    + change (trace (withTasks [parked] I)) with (trace I).
      rewrite HtrI, wire_app. unfold A1. rewrite wire_answered, <- app_assoc. reflexivity.
    + rewrite HI. reflexivity.
    + rewrite HI, Hpm. cbn [timers withTasks set_tasks set_timeoutId set_timers].
      apply lookup_insert_eq.
    + change (tasks (withTasks [parked] I)) with ([parked] ++ tasks I)%list.
      rewrite HtsI. reflexivity.
  - (* the error line *)
    rewrite Ee, Ea2.
    change (trace (withTasks [parked] e0)) with (trace e0).
    change (trace (withTasks [parked] I)) with (trace I).
    repeat apply conj.
    + rewrite Htr0, attempts_app. cbn [attempts]. rewrite attempts_app, attempts_notified.
      destruct (mainWindow I); simpl; apply app_nil_r.
    + rewrite Htr0, wire_app. cbn [wire]. rewrite wire_app, wire_notified.
      destruct (mainWindow I); simpl; apply app_nil_r.
    + exact Hinv0.
    + exact Hinvm0.
    + exact Hinvr0.
    + exact Hcur0.
    + apply (Htm0 _ HidI).
    + change (tasks (withTasks [parked] e0)) with ([parked] ++ tasks e0)%list.
      rewrite Hts0. reflexivity.
  - (* nothing afterwards, short of a completion line *)
    intros evs Hq Hq'. rewrite Ee.
    destruct (parked_until_ok evs parked e0 Hq Hq' Hfm Hinvm0 Hfr) as (H1 & H2 & H3).
    cbv zeta in H2. cbn [continuationTarget continuation parked] in H2.
    rewrite Hinvr0 in H2. repeat apply conj; assumption.
  - (* a completion line *)
    assert (Hre : reachable e).
    { apply reach_step; [|exact Logic.I].
      apply reachable_run; [exact Hr|]. simpl. tauto. }
    assert (Hse0 : tidy e0).
    { destruct (reachable_tidy e Hre) as (Htr & Hcb & Ht & Hw & Hcl & Hk).
      rewrite Ee in Htr, Hcb, Ht, Hw, Hcl.
      unfold tidy, below. rewrite Hts0. repeat apply conj; try assumption. constructor. }
    set (h' := processResponse "ok" e0).
    assert (Hh' : h' = set_moveCompleteCallbacks []
                         (set_trace (trace e0 ++ [Settle pm Fulfilled])%list
                            (set_currentCommand None e0))).
    { unfold h'. rewrite processResponse_ok. unfold clearPendingTimeout. rewrite Hid0.
      rewrite Hcb0, HcbI. reflexivity. }
    assert (Hsh' : tidy h').
    { exact (proj1 (grows_handle (LineReceived "ok") e0 Logic.I Hse0)). }
    set (H := set_tasks [] (withTasks [parked] h')).
    assert (HH : tidy H) by (apply (tidy_set_tasks_nil h'); exact Hsh').
    assert (HcH : isConnected H = true) by (unfold H; rewrite Hh', He0, HI; exact Hc).
    assert (HpH : is_Some (port H)) by (unfold H; rewrite Hh', He0, HI; exact Hp).
    assert (HtsH : tasks H = []) by reflexivity.
    assert (HtrH : trace H = (trace e0 ++ [Settle pm Fulfilled])%list)
      by (unfold H; rewrite Hh'; reflexivity).
    assert (Ef : f = park (nextPromise H) (DeltaReturning result) (snd (sendCommand "G90" None H))).
    { unfold f, step. rewrite Ee, handle_withTasks.
      change (handle (LineReceived "ok") e0) with h'.
      rewrite (runMicrotasks_single _ pm (DeltaMoved result) Fulfilled).
      - fold H. unfold resume, deltaMoved.
        apply (send_and_park "G90" _ _ H HcH HpH HH).
      - change (tasks (withTasks [parked] h')) with ([parked] ++ tasks h')%list.
        rewrite Hh'. cbn [tasks set_moveCompleteCallbacks set_trace set_currentCommand].
        rewrite Hts0. reflexivity.
      - unfold promiseState. change (trace (withTasks [parked] h')) with (trace h').
        rewrite Hh'. cbn [trace set_moveCompleteCallbacks set_trace].
        rewrite invocations_app, Hinvm0. cbn [invocations settles app].
        rewrite Nat.eqb_refl. reflexivity. }
    assert (Hne : result <> pm) by (unfold pm; lia).
    repeat apply conj.
    + rewrite Ef, (sendCommand_connected "G90" None H HcH HpH). unfold park. fields.
      rewrite wire_app, HtrH, wire_app, Ee. cbn [wire]. rewrite app_nil_r. reflexivity.
    + rewrite Ef, (sendCommand_connected "G90" None H HcH HpH). unfold park. fields.
      rewrite invocations_app, HtrH, invocations_app, Hinvm0. cbn [invocations settles app].
      rewrite Nat.eqb_refl. reflexivity.
    + destruct (round_trip "G90" (DeltaReturning result) H HcH HpH HtsH HH eq_refl)
        as [_ R3].
      rewrite <- Ef in R3.
      assert (HwH : nextWrite H = S (S w)) by (unfold H; rewrite Hh', He0, HI; reflexivity).
      rewrite HwH in R3.
      change (run [Written (S (S w)) None; LineReceived "ok"] f)
        with (step (LineReceived "ok") (step (Written (S (S w)) None) f)).
      rewrite R3. unfold resume, settle, observe. fields.
      rewrite invocations_app, invocations_answered.
      * rewrite HtrH, invocations_app, Hinvr0. cbn [invocations settles app].
        destruct (Nat.eqb_spec pm result); [congruence|].
        destruct (Nat.eqb_spec result result); [reflexivity|congruence].
      * unfold H. rewrite Hh', He0, HI, Hres. simpl. lia.
      * unfold H. rewrite Hh'. intros [].
Qed.

(** ** The failures the sequencer catches *)

(** *** What the resumed functions leave as it is *)










(** *** The trace only grows *)


















Lemma move_error_skips_restore_witness :
  let distance := {| x := Some (Decimal false 5 0); y := None; z := None |} in
  let result := fst (deltaMove distance false connectedIdle) in
  let a2 := run [Requested (DeltaMove distance false); Written (nextWrite connectedIdle) None;
                 LineReceived "ok"; Written (S (nextWrite connectedIdle)) None]
              connectedIdle in
  let e := step (LineReceived "Error: Printer halted") a2 in
  attempts (trace e) = attempts (trace a2)
  /\ wire (trace e) = wire (trace a2)
  /\ invocations result (trace e) = []
  /\ tasks e = [{| awaiting := S (S result); continuation := DeltaMoved result |}]
  /\ invocations result
       (trace (run [TimerFired (S (nextTimer connectedIdle)); Requested GoHome] e)) = [].
Proof.
  assert (Hport : is_Some (port connectedIdle)) by (eexists; vm_compute; reflexivity).
  assert (Hconn : isConnected connectedIdle = true) by (vm_compute; reflexivity).
  assert (Htasks : tasks connectedIdle = []) by (vm_compute; reflexivity).
  pose proof (move_error_skips_restore
                {| x := Some (Decimal false 5 0); y := None; z := None |} false
                "Error: Printer halted" connectedIdle
                connectedIdle_reachable Hconn Hport Htasks eq_refl)
    as (_ & (Hattempts & Hwire & _ & _ & Hresult & _ & _ & Hparked) & Hlater & _).
  split; [exact Hattempts|]. split; [exact Hwire|]. split; [exact Hresult|].
  split; [exact Hparked|].
  assert (Hq : forall p, Forall (quiet p)
                           [TimerFired (S (nextTimer connectedIdle)); Requested GoHome])
    by (intros p; repeat constructor).
  destruct (Hlater _ (Hq _) (Hq _)) as (_ & Hnever & _). exact Hnever.
Defined.
